(** * HP transaction processor: a shallow embedding of [hp-processor.js]

    The development follows the class [HPTransactionProcessor] (state store,
    eligibility filter, per-transaction processing, the processing run) and
    the dashboard's [hp-process] trigger endpoint.

    Conventions of the embedding:
    - JavaScript strings are [string]s; [String.prototype.includes] is
      [includes], a search at every position.
    - A field that may be [null]/[undefined] is an [option]; JavaScript
      truthiness of such a field is written out ([truthy]).
    - [this.state.transactions] (a plain object used as a dictionary) is a
      [gmap string TrackedTransaction].
    - The outside world (ledger service, export service, file system, clock)
      is an explicit record threaded through a state-and-exception monad; a
      rejected promise or a thrown error is [Throw].
    - [this.log] appends a structured entry to the log; the rendering of the
      message text and the fire-and-forget sensor publication it triggers are
      not part of the model. *)

From Stdlib Require Import ZArith Lia Bool.
From stdpp Require Import gmap strings list fin_maps.

Open Scope string_scope.

(** ** Strings *)

Module JsString.

(** [s.startsWith(p)] *)
Fixpoint startsWith (s p : string) : bool :=
match p, s with
| EmptyString, _ => true
| String a p', String b s' => if Ascii.eqb a b then startsWith s' p' else false
| String _ _, EmptyString => false
end.

(** [s.includes(needle)]: the needle starts at some position of [s]. *)
Fixpoint includes (s needle : string) : bool :=
startsWith s needle ||
match s with
| EmptyString => false
| String _ s' => includes s' needle
end.

(** ASCII part of [toLowerCase]. *)
Definition lower_ascii (c : Ascii.ascii) : Ascii.ascii :=
let n := Ascii.nat_of_ascii c in
if (65 <=? n)%nat && (n <=? 90)%nat then Ascii.ascii_of_nat (n + 32) else c.

Fixpoint toLowerCase (s : string) : string :=
match s with
| EmptyString => EmptyString
| String c s' => String (lower_ascii c) (toLowerCase s')
end.

(** A value used as a condition: the empty string is falsy. *)
Definition truthy (s : string) : bool :=
match s with EmptyString => false | _ => true end.

End JsString.

Import JsString.

(** ** Ledger data *)

Record Transaction := mkTransaction {
  tx_id : string;
  tx_payee : option string;
  tx_amount : Z;
  tx_date : string;
  tx_category : option string;
  tx_cleared : bool;
  tx_notes : option string;
  tx_account : string
}.

Record CategoryGroup := mkGroup { grp_id : string; grp_name : string }.
Record Category := mkCategory { cat_id : string; cat_name : string; cat_group_id : string }.
Record Account := mkAccount {
  acc_id : string; acc_name : string; acc_offbudget : bool; acc_closed : bool
}.

(** ** Eligibility filter (the two [filter] calls of [fetchHPTransactions]) *)

Definition SUBMITTED_TAG : string := "#HP-Submitted".
Definition PAID_TAG : string := "#HP-Paid".

(** [hpCategoryIds.includes(c)] *)
Definition ids_include (hpCategoryIds : list string) (c : string) : bool :=
  bool_decide (c ∈ hpCategoryIds).

(** [t => t.category && hpCategoryIds.includes(t.category)] *)
Definition in_hp_category (hpCategoryIds : list string) (t : Transaction) : bool :=
  match tx_category t with
  | None => false
  | Some c => truthy c && ids_include hpCategoryIds c
  end.

(** [transaction.notes || ''] *)
Definition notes_or_empty (t : Transaction) : string :=
  match tx_notes t with
  | None => ""
  | Some n => n
  end.

(** The callback of Step 5. *)
Definition step5_keep (t : Transaction) : bool :=
  if negb (tx_cleared t) then false
  else
    let notes := notes_or_empty t in
    if includes notes SUBMITTED_TAG || includes notes PAID_TAG then false
    else true.

(** The filter as the code applies it: the category test on what was fetched,
    then Step 5 on the result. *)
Definition eligibility_filter (hpCategoryIds : list string) (fetched : list Transaction)
  : list Transaction :=
  List.filter step5_keep (List.filter (in_hp_category hpCategoryIds) fetched).

(** The contract in the specification's words: cleared, categorised in the
    group, and neither marker anywhere in the notes. *)
Definition has_marker (t : Transaction) : Prop :=
  ∃ n pre post m, tx_notes t = Some n ∧ (m = SUBMITTED_TAG ∨ m = PAID_TAG)
                  ∧ n = pre ++ m ++ post.

Definition categorised_in (hpCategoryIds : list string) (t : Transaction) : Prop :=
  ∃ c, tx_category t = Some c ∧ c ≠ "" ∧ c ∈ hpCategoryIds.

Definition spec_eligible (hpCategoryIds : list string) (t : Transaction) : Prop :=
  tx_cleared t = true ∧ categorised_in hpCategoryIds t ∧ ¬ has_marker t.


(** ** JSON values ([JSON.parse] results, the persisted document) *)

Local Unset Elimination Schemes.
Inductive json :=
| JNull
| JBool (b : bool)
| JNum (z : Z)
| JStr (s : string)
| JArr (items : list json)
| JObj (fields : list (string * json)).
Local Set Elimination Schemes.

(** [o.key]: [None] is [undefined]. *)
Definition js_get (key : string) (o : json) : option json :=
  match o with
  | JObj fields => snd <$> List.find (λ kv, String.eqb (fst kv) key) fields
  | _ => None
  end.

(** ** Processing state *)

Inductive Status := pending | submitted | paid | failed.

Definition Status_eqb (a b : Status) : bool :=
  match a, b with
  | pending, pending | submitted, submitted | paid, paid | failed, failed => true
  | _, _ => false
  end.

(** Instants ([new Date()]) are counted in seconds. *)
Definition Instant := nat.

Record TrackedTransaction := mkTracked {
  tt_id : string;
  tt_payee : option string;
  tt_amount : Z;
  tt_date : string;
  tt_category : option string;
  tt_status : Status;
  tt_created_at : Instant;
  tt_attempts : nat;
  tt_last_attempt : option Instant;
  tt_submitted_at : option Instant;
  tt_xano_id : option json;
  tt_error : option string
}.

Record Statistics := mkStatistics {
  total_processed : nat;
  total_submitted : nat;
  total_paid : nat;
  total_failed : nat
}.

Record State := mkState {
  transactions : gmap string TrackedTransaction;
  last_processing : option Instant;
  statistics : Statistics
}.

Record Counters := mkCounters {
  c_pending : nat;
  c_submitted : nat;
  c_paid : nat;
  c_failed : nat;
  c_processed_today : nat
}.

Definition zero_counters : Counters := mkCounters 0 0 0 0 0.

(** The object literal returned at the end of [loadState]. *)
Definition default_state : State :=
  {| transactions := ∅;
     last_processing := None;
     statistics := mkStatistics 0 0 0 0 |}.

(** *** The persisted document *)

Definition opt_field {A} (key : string) (enc : A → json) (o : option A)
  : list (string * json) :=
  match o with
  | None => []
  | Some a => [(key, enc a)]
  end.

Definition opt_json {A} (enc : A → json) (o : option A) : json :=
  match o with
  | None => JNull
  | Some a => enc a
  end.

Definition json_of_instant (t : Instant) : json := JNum (Z.of_nat t).

Definition json_of_status (s : Status) : json :=
  JStr match s with
       | pending => "pending"
       | submitted => "submitted"
       | paid => "paid"
       | failed => "failed"
       end.

Definition json_of_tracked (t : TrackedTransaction) : json :=
  JObj ([("id", JStr (tt_id t));
         ("payee", opt_json JStr (tt_payee t));
         ("amount", JNum (tt_amount t));
         ("date", JStr (tt_date t));
         ("category", opt_json JStr (tt_category t));
         ("status", json_of_status (tt_status t));
         ("created_at", json_of_instant (tt_created_at t));
         ("attempts", JNum (Z.of_nat (tt_attempts t)))]
        ++ opt_field "last_attempt" json_of_instant (tt_last_attempt t)
        ++ opt_field "submitted_at" json_of_instant (tt_submitted_at t)
        ++ opt_field "xano_id" (λ j, j) (tt_xano_id t)
        ++ opt_field "error" JStr (tt_error t)).

Definition json_of_statistics (s : Statistics) : json :=
  JObj [("total_processed", JNum (Z.of_nat (total_processed s)));
        ("total_submitted", JNum (Z.of_nat (total_submitted s)));
        ("total_paid", JNum (Z.of_nat (total_paid s)));
        ("total_failed", JNum (Z.of_nat (total_failed s)))].

(** The document [JSON.stringify(this.state, null, 2)] renders. *)
Definition json_of_state (s : State) : json :=
  JObj [("transactions",
         JObj (prod_map (λ k, k) json_of_tracked <$> map_to_list (transactions s)));
        ("last_processing", opt_json json_of_instant (last_processing s));
        ("statistics", json_of_statistics (statistics s))].

(** ** Configuration *)

Record Config := mkConfig {
  hp_category_group_id : string;
  hp_dry_run_mode : bool;
  hp_max_transactions_per_batch : Z
}.

(** [parseInt(v) || dflt]: [None] is [NaN]; [NaN] and [0] are falsy. *)
Definition parseInt_or (parsed : option Z) (dflt : Z) : Z :=
  match parsed with
  | None => dflt
  | Some z => if (z =? 0)%Z then dflt else z
  end.

(** The fields of [loadConfiguration] the processing run reads. *)
Definition loadConfiguration (group_id : option string) (dry_run : option string)
    (batch : option Z) : Config :=
  {| hp_category_group_id :=
       match group_id with
       | Some g => if truthy g then g else "a85d9076-d269-4eb4-ab58-92d2f37997c6"
       | None => "a85d9076-d269-4eb4-ab58-92d2f37997c6"
       end;
     hp_dry_run_mode :=
       match dry_run with
       | Some v => String.eqb v "true"
       | None => false
       end;
     hp_max_transactions_per_batch := parseInt_or batch 50 |}.

(** ** The outside world *)

Inductive FileContent :=
| FileMissing                      (* [fs.existsSync] is false *)
| FileUnreadable (err : string)    (* [fs.readFileSync] throws *)
| FileText (text : string).

Inductive Level := debug | info | warning | error.

Inductive LogMsg :=
| MsgStateLoaded (tracked : nat)
| MsgLoadStateFailed (err : string)
| MsgStateSaved
| MsgSaveStateFailed (err : string)
| MsgInitStart
| MsgInitDone
| MsgInitFailed (err : string)
| MsgShutdownDone
| MsgShutdownFailed (err : string)
| MsgDetectionStart
| MsgFetchingGroups
| MsgFoundGroups (n : nat)
| MsgGroupNotFound (wanted : string)
| MsgAvailableGroups (groups : list CategoryGroup)
| MsgFoundGroup (g : CategoryGroup)
| MsgFetchingCategories
| MsgFoundCategories (n : nat)
| MsgCategory (c : Category)
| MsgNoCategories
| MsgFetchingAccounts
| MsgFoundAccounts (n : nat)
| MsgFetchingTransactions
| MsgFoundInAccount (n : nat) (account_name : string)
| MsgAccountFetchFailed (account_name : string) (err : string)
| MsgFoundTotal (n : nat)
| MsgFoundEligible (n : nat)
| MsgEligible (index : nat) (t : Transaction)
| MsgFetchFailed (err : string)
| MsgProcessing (id : string)
| MsgDryRunSubmit (id : string)
| MsgDryRunTag
| MsgSubmitting (id : string)
| MsgSubmitted (id : string)
| MsgSubmitFailed (id : string) (err : option string)
| MsgProcessError (id : string) (err : string)
| MsgTagAdded (tag : string) (id : string)
| MsgTagFailed (id : string) (err : string)
| MsgCounters (c : Counters)
| MsgRunStart
| MsgNoEligible
| MsgBatch (n : nat) (batchSize : Z)
| MsgRunComplete (processed submitted failed : nat)
| MsgRunFailed (err : string).

(** Calls that leave the process. *)
Inductive Event :=
| EvGetTransactions (account_id : string)
| EvSubmitToXano (id : string)                      (* Export Client *)
| EvUpdateTransaction (id : string) (notes : string)
| EvWriteFile (text : string)
| EvShutdown.

Inductive result (A : Type) :=
| Ok (a : A)
| Throw (err : string).
Arguments Ok {A} a.
Arguments Throw {A} err.

(** How the collaborators answer during one run. *)
Record Env := mkEnv {
  ab_init : result unit;
  ab_getCategoryGroups : result (list CategoryGroup);
  ab_getCategories : result (list Category);
  ab_getAccounts : result (list Account);
  ab_getTransactions_fails : string → option string;     (* by account id *)
  ab_updateTransaction_fails : string → option string;   (* by transaction id *)
  ab_shutdown_fails : option string;
  xano_request : Transaction → result json;
  fs_write_fails : option string;
  JSON_parse : string → option json;
  JSON_stringify : json → string
}.

Record World := mkWorld {
  w_clock : Instant;
  w_ledger : gmap string (list Transaction);  (* account id ↦ its transactions in the window *)
  w_file : FileContent;                       (* /data/hp-state.json *)
  w_log : list (Level * LogMsg);
  w_trace : list Event
}.

(** The processor object together with the world it runs in. *)
Record Sys := mkSys {
  s_state : State;
  s_counters : Counters;
  s_world : World
}.

(** ** A state-and-exception monad for the processor's methods

    A method either returns ([Ok]) or throws ([Throw]); what it did to the
    processor and the world before throwing stays done. *)

Definition M (A : Type) : Type := Sys → result A * Sys.

Definition ret {A} (a : A) : M A := λ s, (Ok a, s).

Definition bind {A B} (m : M A) (k : A → M B) : M B :=
  λ s, match m s with
       | (Ok a, s') => k a s'
       | (Throw e, s') => (Throw e, s')
       end.

Definition throw {A} (e : string) : M A := λ s, (Throw e, s).

(** [try { m } catch (error) { h error }] *)
Definition try_catch {A} (m : M A) (h : string → M A) : M A :=
  λ s, match m s with
       | (Ok a, s') => (Ok a, s')
       | (Throw e, s') => h e s'
       end.

(** [try { m } finally { f }] *)
Definition try_finally {A} (m : M A) (f : M unit) : M A :=
  λ s, match m s with
       | (r, s') =>
           match f s' with
           | (Ok _, s'') => (r, s'')
           | (Throw e, s'') => (Throw e, s'')
           end
       end.

#[global] Instance M_ret : MRet M := @ret.
#[global] Instance M_bind : MBind M := λ A B k m, bind m k.

(** [for (const x of l) { acc = body acc x }] *)
Fixpoint for_of {A B} (l : list A) (acc : B) (body : B → A → M B) : M B :=
  match l with
  | [] => ret acc
  | x :: l' => acc' ← body acc x; for_of l' acc' body
  end.

(** [l.forEach(f)] *)
Definition forEach {A} (l : list A) (f : A → M unit) : M unit :=
  for_of l tt (λ _, f).

Definition get_state : M State := λ s, (Ok (s_state s), s).
Definition set_state (st : State) : M unit :=
  λ s, (Ok tt, mkSys st (s_counters s) (s_world s)).
Definition get_counters : M Counters := λ s, (Ok (s_counters s), s).
Definition set_counters (c : Counters) : M unit :=
  λ s, (Ok tt, mkSys (s_state s) c (s_world s)).
Definition get_world : M World := λ s, (Ok (s_world s), s).
Definition set_world (w : World) : M unit :=
  λ s, (Ok tt, mkSys (s_state s) (s_counters s) w).

(** [new Date()] *)
Definition now : M Instant := w ← get_world; ret (w_clock w).

(** Time passes across an [await] on a collaborator. *)
Definition tick (seconds : nat) : M unit :=
  w ← get_world;
  set_world (mkWorld (w_clock w + seconds) (w_ledger w) (w_file w) (w_log w) (w_trace w)).

Definition emit (e : Event) : M unit :=
  w ← get_world;
  set_world (mkWorld (w_clock w) (w_ledger w) (w_file w) (w_log w) (w_trace w ++ [e])).

(** [this.log(level, message)] *)
Definition log (l : Level) (m : LogMsg) : M unit :=
  w ← get_world;
  set_world (mkWorld (w_clock w) (w_ledger w) (w_file w) (w_log w ++ [(l, m)]) (w_trace w)).

Definition lift_result {A} (r : result A) : M A :=
  match r with
  | Ok a => ret a
  | Throw e => throw e
  end.

(** ** State store *)

Section StateStore.
Variable env : Env.

(** The number [Object.keys(state.transactions || {}).length] logs. *)
Definition tracked_count (j : json) : nat :=
  match js_get "transactions" j with
  | Some (JObj fields) => length (remove_dups (fst <$> fields))
  | Some (JArr items) => length items
  | Some (JStr s) => String.length s
  | _ => 0
  end.

(** [fs.existsSync(this.stateFile)] *)
Definition existsSync : M bool :=
  w ← get_world;
  mret match w_file w with FileMissing => false | _ => true end.

(** [fs.readFileSync(this.stateFile, 'utf8')] *)
Definition readFileSync : M string :=
  w ← get_world;
  match w_file w return M string with
  | FileText text => mret text
  | FileUnreadable err => throw err
  | FileMissing => throw "ENOENT: no such file or directory"
  end.

(** [JSON.parse(text)] *)
Definition parse (text : string) : M json :=
  match JSON_parse env text with
  | Some j => mret j
  | None => throw "SyntaxError: Unexpected token in JSON"
  end.

(** [state.transactions]: reading a property of [null] throws. *)
Definition read_transactions (state : json) : M (option json) :=
  match state with
  | JNull => throw "TypeError: Cannot read properties of null"
  | _ => mret (js_get "transactions" state)
  end.

Definition loadState : M json :=
  loaded ← try_catch (A := option json)
    (existsSync ≫= λ present : bool,
     if present then
       stateData ← readFileSync;
       state ← parse stateData;
       read_transactions state;;
       log info (MsgStateLoaded (tracked_count state));;
       mret (Some state)
     else mret None)
    (λ err, log warning (MsgLoadStateFailed err);; mret None);
  match loaded with
  | Some state => mret state
  | None => mret (json_of_state default_state)
  end.

(** [fs.writeFileSync(this.stateFile, text)] *)
Definition writeFileSync (text : string) : M unit :=
  emit (EvWriteFile text);;
  match fs_write_fails env with
  | Some err => throw err
  | None =>
      w ← get_world;
      set_world (mkWorld (w_clock w) (w_ledger w) (FileText text) (w_log w) (w_trace w))
  end.

Definition saveState : M unit :=
  try_catch
    (t ← now;
     st ← get_state;
     set_state (mkState (transactions st) (Some t) (statistics st));;
     st ← get_state;
     writeFileSync (JSON_stringify env (json_of_state st));;
     log debug MsgStateSaved)
    (λ err, log error (MsgSaveStateFailed err)).

End StateStore.

(** ** The processor's methods *)

Record SubmissionResult := mkSubmission {
  sub_success : bool;
  sub_xano_id : option json;
  sub_error : option string
}.

(** The object [processTransaction] resolves to. *)
Record ProcessResult := mkProcessResult {
  pr_success : bool;
  pr_error : option string
}.

(** The object [processAllTransactions] resolves to. *)
Record RunResult := mkRunResult {
  processed : nat;
  submitted_count : nat;
  failed_count : nat
}.

(** [l.slice(0, e)]: a negative end counts from the end of the array. *)
Definition slice0 {A} (l : list A) (e : Z) : list A :=
  let len := Z.of_nat (length l) in
  let k := if (e <? 0)%Z then Z.max (len + e) 0 else Z.min e len in
  take (Z.to_nat k) l.

Definition set_notes (id notes : string) (t : Transaction) : Transaction :=
  if String.eqb (tx_id t) id
  then mkTransaction (tx_id t) (tx_payee t) (tx_amount t) (tx_date t) (tx_category t)
                     (tx_cleared t) (Some notes) (tx_account t)
  else t.

Definition set_tracked_status (st : Status) (err : option string) (t : TrackedTransaction)
  : TrackedTransaction :=
  mkTracked (tt_id t) (tt_payee t) (tt_amount t) (tt_date t) (tt_category t) st
            (tt_created_at t) (tt_attempts t) (tt_last_attempt t) (tt_submitted_at t)
            (tt_xano_id t) err.

Section Processor.
Variable config : Config.
Variable env : Env.

(** *** Ledger client *)

Definition initializeActualBudget : M bool :=
  try_catch
    (log info MsgInitStart;;
     lift_result (ab_init env);;
     tick 1;;
     log info MsgInitDone;;
     mret true)
    (λ err, log error (MsgInitFailed err);; throw err).

Definition shutdownActualBudget : M unit :=
  try_catch
    (emit EvShutdown;;
     match ab_shutdown_fails env with
     | Some err => throw err
     | None => log info MsgShutdownDone
     end)
    (λ err, log warning (MsgShutdownFailed err)).

Definition getCategoryGroups : M (list CategoryGroup) :=
  tick 1;; lift_result (ab_getCategoryGroups env).

Definition getCategories : M (list Category) :=
  tick 1;; lift_result (ab_getCategories env).

Definition getAccounts : M (list Account) :=
  tick 1;; lift_result (ab_getAccounts env).

(** [actualApi.getTransactions(account.id, startDate, endDate)] *)
Definition getTransactions (account_id : string) : M (list Transaction) :=
  w ← get_world;
  emit (EvGetTransactions account_id);;
  tick 1;;
  match ab_getTransactions_fails env account_id with
  | Some err => throw err
  | None => mret (default [] (w_ledger w !! account_id))
  end.

(** [actualApi.updateTransaction(id, { notes })] *)
Definition updateTransaction (id notes : string) : M unit :=
  emit (EvUpdateTransaction id notes);;
  tick 1;;
  match ab_updateTransaction_fails env id with
  | Some err => throw err
  | None =>
      w ← get_world;
      set_world (mkWorld (w_clock w) (List.map (set_notes id notes) <$> w_ledger w)
                         (w_file w) (w_log w) (w_trace w))
  end.

Definition addNoteTag (transaction : Transaction) (tag : string) : M unit :=
  try_catch
    (let currentNotes := notes_or_empty transaction in
     let newNotes := if truthy currentNotes then currentNotes ++ " " ++ tag else tag in
     updateTransaction (tx_id transaction) newNotes;;
     log info (MsgTagAdded tag (tx_id transaction)))
    (λ err, log error (MsgTagFailed (tx_id transaction) err)).

(** *** Export client *)

Definition makeXanoRequest (transaction : Transaction) : M json :=
  emit (EvSubmitToXano (tx_id transaction));;
  tick 1;;
  lift_result (xano_request env transaction).

Definition submitToXano (transaction : Transaction) : M SubmissionResult :=
  try_catch
    (log info (MsgSubmitting (tx_id transaction));;
     response ← makeXanoRequest transaction;
     mret (mkSubmission true (js_get "id" response) None))
    (λ err, mret (mkSubmission false None (Some err))).

(** *** Detection *)

(** The predicate of [categoryGroups.find]. *)
Definition is_hp_group (group : CategoryGroup) : bool :=
  String.eqb (grp_id group) (hp_category_group_id config)
  || String.eqb (grp_name group) "HP"
  || includes (toLowerCase (grp_name group)) "hp".

(** The body of the loop over the on-budget accounts. *)
Definition fetch_account (hpCategoryIds : list string)
    (allTransactions : list Transaction) (account : Account) : M (list Transaction) :=
  try_catch
    (fetched ← getTransactions (acc_id account);
     let hpTransactions := List.filter (in_hp_category hpCategoryIds) fetched in
     if (0 <? length hpTransactions)%nat
     then log info (MsgFoundInAccount (length hpTransactions) (acc_name account));;
          mret (allTransactions ++ hpTransactions)%list
     else mret allTransactions)
    (λ err, log warning (MsgAccountFetchFailed (acc_name account) err);;
            mret allTransactions).

Definition fetchHPTransactions : M (list Transaction) :=
  log info MsgDetectionStart;;
  try_catch
    (log info MsgFetchingGroups;;
     categoryGroups ← getCategoryGroups;
     log info (MsgFoundGroups (length categoryGroups));;
     match List.find is_hp_group categoryGroups with
     | None =>
         log error (MsgGroupNotFound (hp_category_group_id config));;
         log info (MsgAvailableGroups categoryGroups);;
         mret []
     | Some hpCategoryGroup =>
         log info (MsgFoundGroup hpCategoryGroup);;
         log info MsgFetchingCategories;;
         allCategories ← getCategories;
         let hpCategories :=
           List.filter (λ cat, String.eqb (cat_group_id cat) (grp_id hpCategoryGroup))
                       allCategories in
         log info (MsgFoundCategories (length hpCategories));;
         forEach hpCategories (λ cat, log info (MsgCategory cat));;
         if (length hpCategories =? 0)%nat
         then log warning MsgNoCategories;; mret []
         else
           log info MsgFetchingAccounts;;
           accounts ← getAccounts;
           let onBudgetAccounts :=
             List.filter (λ acc, negb (acc_offbudget acc) && negb (acc_closed acc))
                         accounts in
           log info (MsgFoundAccounts (length onBudgetAccounts));;
           log info MsgFetchingTransactions;;
           let hpCategoryIds := cat_id <$> hpCategories in
           allTransactions ← for_of onBudgetAccounts [] (fetch_account hpCategoryIds);
           log info (MsgFoundTotal (length allTransactions));;
           let eligibleTransactions := List.filter step5_keep allTransactions in
           log info (MsgFoundEligible (length eligibleTransactions));;
           forEach (imap (λ index t, (index, t)) eligibleTransactions)
                   (λ it, log info (MsgEligible (fst it + 1) (snd it)));;
           mret eligibleTransactions
     end)
    (λ err, log error (MsgFetchFailed err);; throw err).

(** *** Processing one transaction *)

Definition bump_submitted : M unit :=
  c ← get_counters;
  set_counters (mkCounters (c_pending c) (c_submitted c + 1) (c_paid c) (c_failed c)
                           (c_processed_today c)).

Definition bump_failed : M unit :=
  c ← get_counters;
  set_counters (mkCounters (c_pending c) (c_submitted c) (c_paid c) (c_failed c + 1)
                           (c_processed_today c)).

(** [this.state.transactions[id] = f(this.state.transactions[id])] *)
Definition update_tracked (id : string) (f : TrackedTransaction → TrackedTransaction)
  : M unit :=
  st ← get_state;
  set_state (mkState (alter f id (transactions st)) (last_processing st) (statistics st)).

Definition processTransaction (transaction : Transaction) : M ProcessResult :=
  let transactionId := tx_id transaction in
  try_catch
    (log info (MsgProcessing transactionId);;
     st ← get_state;
     t0 ← now;
     match transactions st !! transactionId with
     | Some _ => mret ()
     | None =>
         set_state
           (mkState
              (<[transactionId :=
                   mkTracked transactionId (tx_payee transaction) (tx_amount transaction)
                     (tx_date transaction) (tx_category transaction) pending t0 0
                     None None None None]> (transactions st))
              (last_processing st) (statistics st))
     end;;
     update_tracked transactionId
       (λ t, mkTracked (tt_id t) (tt_payee t) (tt_amount t) (tt_date t) (tt_category t)
               (tt_status t) (tt_created_at t) (tt_attempts t + 1) (Some t0)
               (tt_submitted_at t) (tt_xano_id t) (tt_error t));;
     if hp_dry_run_mode config then
       log info (MsgDryRunSubmit transactionId);;
       update_tracked transactionId
         (λ t, mkTracked (tt_id t) (tt_payee t) (tt_amount t) (tt_date t) (tt_category t)
                 submitted (tt_created_at t) (tt_attempts t) (tt_last_attempt t)
                 (Some t0) (tt_xano_id t) (tt_error t));;
       bump_submitted;;
       log info MsgDryRunTag;;
       mret (mkProcessResult true None)
     else
       submissionResult ← submitToXano transaction;
       if sub_success submissionResult then
         t1 ← now;
         update_tracked transactionId
           (λ t, mkTracked (tt_id t) (tt_payee t) (tt_amount t) (tt_date t)
                   (tt_category t) submitted (tt_created_at t) (tt_attempts t)
                   (tt_last_attempt t) (Some t1) (sub_xano_id submissionResult)
                   (tt_error t));;
         bump_submitted;;
         addNoteTag transaction SUBMITTED_TAG;;
         log info (MsgSubmitted transactionId);;
         mret (mkProcessResult true None)
       else
         update_tracked transactionId
           (set_tracked_status failed (sub_error submissionResult));;
         bump_failed;;
         log error (MsgSubmitFailed transactionId (sub_error submissionResult));;
         mret (mkProcessResult false (sub_error submissionResult)))
    (λ err,
       log error (MsgProcessError transactionId err);;
       update_tracked transactionId (set_tracked_status failed (Some err));;
       bump_failed;;
       mret (mkProcessResult false (Some err))).

(** *** Counters *)

Definition same_day (a b : Instant) : bool :=
  (N.of_nat a / 86400 =? N.of_nat b / 86400)%N.

Definition count_status (st : Status) (m : gmap string TrackedTransaction) : nat :=
  length (List.filter (λ kv, Status_eqb (tt_status (snd kv)) st) (map_to_list m)).

Definition updateCounters : M unit :=
  st ← get_state;
  today ← now;
  let c :=
    mkCounters (count_status pending (transactions st))
               (count_status submitted (transactions st))
               (count_status paid (transactions st))
               (count_status failed (transactions st))
               (length (List.filter (λ kv, same_day (tt_created_at (snd kv)) today)
                                    (map_to_list (transactions st)))) in
  set_counters c;;
  log info (MsgCounters c).

(** *** The processing run *)

(** The body of the loop over [transactionsToProcess]. *)
Definition process_one (tally : RunResult) (transaction : Transaction) : M RunResult :=
  res ← processTransaction transaction;
  let tally' :=
    if pr_success res
    then mkRunResult (processed tally + 1) (submitted_count tally + 1) (failed_count tally)
    else mkRunResult (processed tally + 1) (submitted_count tally) (failed_count tally + 1)
  in
  tick 1;;
  mret tally'.

Definition add_statistics (r : RunResult) : M unit :=
  st ← get_state;
  let s := statistics st in
  set_state (mkState (transactions st) (last_processing st)
               (mkStatistics (total_processed s + processed r)
                             (total_submitted s + submitted_count r)
                             (total_paid s)
                             (total_failed s + failed_count r))).

Definition processAllTransactions : M RunResult :=
  try_finally
    (try_catch
       (log info MsgRunStart;;
        initializeActualBudget;;
        eligible ← fetchHPTransactions;
        if (length eligible =? 0)%nat then
          log info MsgNoEligible;;
          updateCounters;;
          mret (mkRunResult 0 0 0)
        else
          let batchSize :=
            Z.min (Z.of_nat (length eligible)) (hp_max_transactions_per_batch config) in
          let transactionsToProcess := slice0 eligible batchSize in
          log info (MsgBatch (length transactionsToProcess) batchSize);;
          tally ← for_of transactionsToProcess (mkRunResult 0 0 0) process_one;
          add_statistics tally;;
          saveState env;;
          updateCounters;;
          log info (MsgRunComplete (processed tally) (submitted_count tally)
                                   (failed_count tally));;
          mret tally)
       (λ err, log error (MsgRunFailed err);; throw err))
    shutdownActualBudget.

End Processor.

(** ** The dashboard's manual trigger ([POST /dashboard-api/hp-process]) *)

Module Dashboard.

Record Response := mkResponse {
  status_code : nat;
  success : bool;
  message : string;
  counts : option RunResult
}.

(** What the server holds for the trigger endpoint: the processor children
    it has spawned that are still alive, and the responses it has written. The
    handler keeps no flag that a run is in progress. *)
Record Server := mkServer {
  running : list nat;      (* children alive, newest first *)
  spawned : nat;           (* children spawned so far; the next child's number *)
  sent : list (nat * Response)
}.

(** The request handler: [spawn('node', ['/opt/hp-processor.js', '--manual'])];
    the response is sent later, from the child's [close] or the timeout. *)
Definition hp_process (s : Server) : Server :=
  mkServer (spawned s :: running s) (S (spawned s)) (sent s).

(** [hpProcessor.on('close', code => ...)]; [output] is the parsed last line
    of the child's standard output, if there is one and it parses. *)
Definition on_close (child : nat) (code : Z) (output : option RunResult) (s : Server)
  : Server :=
  let r :=
    match output with
    | Some res =>
        if (code =? 0)%Z
        then mkResponse 200 true "HP transaction processing completed successfully"
                        (Some res)
        else mkResponse 500 false "HP processing failed" None
    | None => mkResponse 500 false "HP processing failed" None
    end in
  mkServer (List.filter (λ c, negb (c =? child)%nat) (running s)) (spawned s)
           (sent s ++ [(child, r)]).

(** The 60 second timer. [hpProcessor.killed] is false until [kill] has
    been called, and only this timer calls it: when the timer fires the
    child is killed and 408 is written. *)
Definition on_timeout (child : nat) (s : Server) : Server :=
  mkServer (List.filter (λ c, negb (c =? child)%nat) (running s)) (spawned s)
           (sent s ++ [(child, mkResponse 408 false "HP processing timed out" None)]).

(** The earlier handler (dashboard [server.js] of the add-on): a fixed
    answer, no child. *)
Definition hp_process_mock (s : Server) : Server :=
  mkServer (running s) (spawned s)
           (sent s ++ [(spawned s,
                        mkResponse 200 true
                          "HP transaction processing triggered successfully"
                          (Some (mkRunResult 0 0 0)))]).

Inductive Input :=
| Trigger
| Close (child : nat) (code : Z) (output : option RunResult)
| Timeout (child : nat).

Definition step (s : Server) (i : Input) : Server :=
  match i with
  | Trigger => hp_process s
  | Close child code output => on_close child code output s
  | Timeout child => on_timeout child s
  end.

Definition serve (s : Server) (inputs : list Input) : Server :=
  fold_left step inputs s.

Definition idle_server : Server := mkServer [] 0 [].

(** A run is in progress when a spawned processor is alive. *)
Definition run_in_progress (s : Server) : bool :=
  match running s with [] => false | _ => true end.

End Dashboard.

(** ** The dashboard's read endpoints *)

(** A [json] value stands for a parsed JavaScript value, so the fields of a
    [JObj] are its own properties in enumeration order, each key once. *)

Module DashboardApi.

(** A value used as a condition. *)
Definition js_truthy (j : json) : bool :=
  match j with
  | JNull => false
  | JBool b => b
  | JNum z => negb (z =? 0)%Z
  | JStr s => truthy s
  | JArr _ | JObj _ => true
  end.








(** *** The entity endpoint and its cache *)

(** What the Home Assistant API did with the request. *)
Inductive HaAnswer :=
| HaResponse (statusCode : nat) (data : string)
| HaError (err : string)
| HaTimeout.

(** [fetchEntityState]: the promise's outcome and the cache afterwards. *)
Definition fetchEntityState (parse : string → option json) (entityId : string)
    (answer : HaAnswer) (entityCache : gmap string json)
  : result json * gmap string json :=
  match answer with
  | HaResponse statusCode data =>
      if (statusCode =? 200)%nat then
        match parse data with
        | Some parsed => (Ok parsed, <[entityId := parsed]> entityCache)
        | None => (Throw "Parse error", entityCache)
        end
      else (Throw "HTTP error", entityCache)
  | HaError err => (Throw err, entityCache)
  | HaTimeout => (Throw "Request timeout", entityCache)
  end.

(** [s.slice(n)] *)
Fixpoint drop_string (n : nat) (s : string) : string :=
  match n, s with
  | 0, _ => s
  | S n', String _ s' => drop_string n' s'
  | S _, EmptyString => EmptyString
  end.

(** [s.replace(pattern, replacement)] with a string pattern: the first
    occurrence only. *)
Fixpoint replace_first (s pattern replacement : string) : string :=
  if startsWith s pattern
  then replacement ++ drop_string (String.length pattern) s
  else match s with
       | EmptyString => EmptyString
       | String c s' => String c (replace_first s' pattern replacement)
       end.

Definition underscore : Ascii.ascii := Ascii.ascii_of_nat 95.
Definition space : Ascii.ascii := Ascii.ascii_of_nat 32.

(** [s.replace(/_/g, ' ')] *)
Fixpoint underscores_to_spaces (s : string) : string :=
  match s with
  | EmptyString => EmptyString
  | String c s' =>
      String (if Ascii.eqb c underscore then space else c) (underscores_to_spaces s')
  end.

Definition friendly_name (entityId : string) : string :=
  underscores_to_spaces (replace_first entityId "sensor.actual_budget_" "").

Definition placeholder (entityId : string) : json :=
  JObj [("entity_id", JStr entityId);
        ("state", JStr "unavailable");
        ("attributes",
         JObj [("friendly_name", JStr (friendly_name entityId));
               ("description", JStr "Unable to fetch data")])].

Definition no_token_answer : json :=
  JObj [("error", JStr "No supervisor token available");
        ("state", JStr "unknown");
        ("attributes", JObj [("friendly_name", JStr "Unknown")])].

(** The cache is a plain object, so reading it at one of these names finds
    a property of [Object.prototype] instead of a cached answer; the model of
    the endpoint is for the other entity ids. *)
Definition object_prototype_names : list string :=
  ["constructor"; "hasOwnProperty"; "isPrototypeOf"; "propertyIsEnumerable";
   "toLocaleString"; "toString"; "valueOf"; "__proto__";
   "__defineGetter__"; "__defineSetter__"; "__lookupGetter__"; "__lookupSetter__"].

Definition own_key (entityId : string) : bool :=
  negb (existsb (String.eqb entityId) object_prototype_names).

(** [GET /dashboard-api/entity?id=...] for a non-empty [id] that is an
    [own_key]: the status code, the body, and the cache afterwards. The log
    line after a successful fetch reads [entityData.state], which throws for
    [null]. *)
Definition entity (parse : string → option json) (token : option string)
    (entityId : string) (answer : HaAnswer) (entityCache : gmap string json)
  : nat * json * gmap string json :=
  if match token with Some t => truthy t | None => false end then
    let '(fetched, cache) := fetchEntityState parse entityId answer entityCache in
    let outcome :=
      match fetched with
      | Ok JNull => Throw "TypeError: Cannot read properties of null"
      | other => other
      end in
    match outcome with
    | Ok entityData => (200, entityData, cache)
    | Throw _ =>
        match cache !! entityId with
        | Some cached =>
            if js_truthy cached then (200, cached, cache)
            else (200, placeholder entityId, cache)
        | None => (200, placeholder entityId, cache)
        end
    end
  else (500, no_token_answer, entityCache).

End DashboardApi.

(** * Properties *)

(** ** Strings and the filter *)

Lemma startsWith_spec s p : startsWith s p = true ↔ ∃ post, s = p ++ post.
Proof.
  revert s. induction p as [|a p IH]; intros s.
  - split; [intros _; by exists s | by destruct s].
  - destruct s as [|b s]; simpl.
    + split; [done | intros [post H]; discriminate].
    + destruct (Ascii.eqb_spec a b) as [->|Hne].
      * rewrite IH. split; intros [post H]; exists post; [by rewrite H | by injection H].
      * split; [done | intros [post H]; injection H; congruence].
Qed.

Lemma includes_nil needle : includes "" needle = startsWith "" needle.
Proof. simpl. apply orb_false_r. Qed.

Lemma includes_cons b s needle :
  includes (String b s) needle = startsWith (String b s) needle || includes s needle.
Proof. reflexivity. Qed.

Lemma includes_spec s needle :
  includes s needle = true ↔ ∃ pre post, s = pre ++ needle ++ post.
Proof.
  induction s as [|b s IH].
  - rewrite includes_nil, startsWith_spec. split.
    + intros [post H]. by exists "", post.
    + intros [pre [post H]]. destruct pre; [by exists post | discriminate].
  - rewrite includes_cons, orb_true_iff, startsWith_spec, IH. split.
    + intros [[post H] | [pre [post H]]].
      * by exists "", post.
      * exists (String b pre), post. simpl. by rewrite H.
    + intros [pre [post H]]. destruct pre as [|c pre].
      * left. by exists post.
      * right. simpl in H. injection H as _ H. by exists pre, post.
Qed.

Lemma notes_marked_iff t :
  includes (notes_or_empty t) SUBMITTED_TAG || includes (notes_or_empty t) PAID_TAG = true
  ↔ has_marker t.
Proof.
  rewrite orb_true_iff, !includes_spec. unfold has_marker, notes_or_empty. split.
  - intros [[pre [post H]] | [pre [post H]]]; destruct (tx_notes t) as [n|] eqn:Hn.
    + exists n, pre, post, SUBMITTED_TAG. auto.
    + destruct pre; discriminate.
    + exists n, pre, post, PAID_TAG. auto.
    + destruct pre; discriminate.
  - intros (n & pre & post & m & Hn & [-> | ->] & ->); rewrite Hn; [left | right]; eauto.
Qed.

Lemma step5_keep_spec t :
  step5_keep t = true ↔ tx_cleared t = true ∧ ¬ has_marker t.
Proof.
  unfold step5_keep. rewrite <- notes_marked_iff.
  destruct (tx_cleared t); simpl; [| naive_solver].
  destruct (includes _ SUBMITTED_TAG || includes _ PAID_TAG); simpl; naive_solver.
Qed.

Lemma in_hp_category_spec ids t :
  in_hp_category ids t = true ↔ categorised_in ids t.
Proof.
  unfold in_hp_category, categorised_in, ids_include.
  destruct (tx_category t) as [c|]; [| naive_solver].
  rewrite andb_true_iff, bool_decide_eq_true. split.
  - intros [Hc Hin]. exists c. repeat split; auto. by intros ->.
  - intros (c' & [= <-] & Hne & Hin). split; [by destruct c | done].
Qed.

Lemma eligibility_filter_fused ids fetched :
  eligibility_filter ids fetched =
  List.filter (λ t, in_hp_category ids t && step5_keep t) fetched.
Proof.
  unfold eligibility_filter. induction fetched as [|t l IH]; simpl; [done|].
  destruct (in_hp_category ids t); simpl; [| done].
  destruct (step5_keep t); by rewrite IH.
Qed.

Lemma keep_spec ids t :
  in_hp_category ids t && step5_keep t = true ↔ spec_eligible ids t.
Proof.
  rewrite andb_true_iff, in_hp_category_spec, step5_keep_spec.
  unfold spec_eligible. tauto.
Qed.

Lemma eligibility_filter_elem ids fetched t :
  t ∈ eligibility_filter ids fetched ↔ t ∈ fetched ∧ spec_eligible ids t.
Proof.
  rewrite eligibility_filter_fused, list_elem_of_In, List.filter_In.
  by rewrite <- list_elem_of_In, keep_spec.
Qed.

Lemma filter_concat_map {A B} (p : B → bool) (f : A → list B) (l : list A) :
  List.filter p (concat (f <$> l)) = concat ((λ a, List.filter p (f a)) <$> l).
Proof.
  induction l as [|a l IH]; [done|].
  rewrite !fmap_cons. simpl. rewrite List.filter_app. by f_equal.
Qed.

Lemma elem_of_concat {A} (x : A) (ls : list (list A)) :
  x ∈ concat ls ↔ ∃ l, x ∈ l ∧ l ∈ ls.
Proof.
  rewrite list_elem_of_In, in_concat.
  split; intros (l & H1 & H2); exists l; rewrite ?list_elem_of_In in *; tauto.
Qed.

(** ** Running the monad *)

Ltac run :=
  cbv [processTransaction submitToXano makeXanoRequest addNoteTag updateTransaction
       getTransactions update_tracked bump_submitted bump_failed
       initializeActualBudget shutdownActualBudget getCategoryGroups getCategories
       getAccounts saveState writeFileSync updateCounters add_statistics
       log emit tick now lift_result
       get_state set_state get_counters set_counters get_world set_world
       try_catch try_finally throw
       mbind mret M_bind M_ret bind ret] in *;
  cbn [fst snd s_state s_counters s_world w_clock w_ledger w_file w_log w_trace
       transactions last_processing statistics
       sub_success sub_xano_id sub_error pr_success pr_error] in *.

(** ** One transaction *)

(** The entry [processTransaction] works on: the tracked one, or the one it
    creates. *)
Definition new_tracked (tx : Transaction) (t0 : Instant) : TrackedTransaction :=
  mkTracked (tx_id tx) (tx_payee tx) (tx_amount tx) (tx_date tx) (tx_category tx)
            pending t0 0 None None None None.

Definition tracked_or_new (tx : Transaction) (t0 : Instant)
    (m : gmap string TrackedTransaction) : TrackedTransaction :=
  default (new_tracked tx t0) (m !! tx_id tx).

Definition attempted (t0 : Instant) (t : TrackedTransaction) : TrackedTransaction :=
  mkTracked (tt_id t) (tt_payee t) (tt_amount t) (tt_date t) (tt_category t)
            (tt_status t) (tt_created_at t) (tt_attempts t + 1) (Some t0)
            (tt_submitted_at t) (tt_xano_id t) (tt_error t).

Definition marked_submitted (t1 : Instant) (xano_id : option json)
    (t : TrackedTransaction) : TrackedTransaction :=
  mkTracked (tt_id t) (tt_payee t) (tt_amount t) (tt_date t) (tt_category t)
            submitted (tt_created_at t) (tt_attempts t) (tt_last_attempt t)
            (Some t1) xano_id (tt_error t).

(** The state after one transaction was processed and its entry became [e]. *)
Definition with_entry (st : State) (id : string) (e : TrackedTransaction) : State :=
  mkState (<[id := e]> (transactions st)) (last_processing st) (statistics st).

Lemma alter_twice_tracked (m : gmap string TrackedTransaction) k e f g :
  m !! k = Some e → alter g k (alter f k m) = <[k := g (f e)]> m.
Proof.
  intros E. apply map_eq. intros j. destruct (decide (j = k)) as [->|Hne].
  - by rewrite lookup_insert_eq, !lookup_alter_eq, E.
  - rewrite lookup_insert_ne by done. by rewrite !lookup_alter_ne.
Qed.

Lemma alter_twice_new (m : gmap string TrackedTransaction) k new f g :
  alter g k (alter f k (<[k := new]> m)) = <[k := g (f new)]> m.
Proof.
  rewrite (alter_twice_tracked _ k new) by apply lookup_insert_eq.
  apply insert_insert_eq.
Qed.

(** Brings the state of a symbolic run into the [with_entry] form. *)
Ltac entry E :=
  unfold with_entry, tracked_or_new; rewrite E; cbn [default from_option];
  first [ erewrite alter_twice_tracked by exact E | rewrite alter_twice_new ].

(** The notes [addNoteTag] writes. *)
Definition tagged_notes (tx : Transaction) (tag : string) : string :=
  if truthy (notes_or_empty tx) then notes_or_empty tx ++ " " ++ tag else tag.

(** What processing one transaction amounts to, read off the code path by
    path: dry run, submission accepted (tag written or not), submission
    refused. [processTransaction_eq] proves the code does exactly this. *)
Section Outcome.
Variable config : Config.
Variable env : Env.
Variable tx : Transaction.

Definition succeeds : bool :=
  hp_dry_run_mode config
  || match xano_request env tx with Ok _ => true | Throw _ => false end.

Definition outcome_error : option string :=
  if hp_dry_run_mode config then None
  else match xano_request env tx with Ok _ => None | Throw err => Some err end.

Definition entry_after (t0 : Instant) (e0 : TrackedTransaction) : TrackedTransaction :=
  if hp_dry_run_mode config
  then marked_submitted t0 (tt_xano_id e0) (attempted t0 e0)
  else match xano_request env tx with
       | Ok response =>
           marked_submitted (t0 + 1) (js_get "id" response) (attempted t0 e0)
       | Throw err => set_tracked_status failed (Some err) (attempted t0 e0)
       end.

Definition tx_events : list Event :=
  if hp_dry_run_mode config then []
  else match xano_request env tx with
       | Ok _ => [EvSubmitToXano (tx_id tx);
                  EvUpdateTransaction (tx_id tx) (tagged_notes tx SUBMITTED_TAG)]
       | Throw _ => [EvSubmitToXano (tx_id tx)]
       end.

Definition tx_log : list (Level * LogMsg) :=
  if hp_dry_run_mode config
  then [(info, MsgProcessing (tx_id tx)); (info, MsgDryRunSubmit (tx_id tx));
        (info, MsgDryRunTag)]
  else match xano_request env tx with
       | Ok _ =>
           [(info, MsgProcessing (tx_id tx)); (info, MsgSubmitting (tx_id tx));
            match ab_updateTransaction_fails env (tx_id tx) with
            | Some err => (error, MsgTagFailed (tx_id tx) err)
            | None => (info, MsgTagAdded SUBMITTED_TAG (tx_id tx))
            end;
            (info, MsgSubmitted (tx_id tx))]
       | Throw err =>
           [(info, MsgProcessing (tx_id tx)); (info, MsgSubmitting (tx_id tx));
            (error, MsgSubmitFailed (tx_id tx) (Some err))]
       end.

Definition tx_ledger (ledger : gmap string (list Transaction))
  : gmap string (list Transaction) :=
  if hp_dry_run_mode config then ledger
  else match xano_request env tx, ab_updateTransaction_fails env (tx_id tx) with
       | Ok _, None =>
           List.map (set_notes (tx_id tx) (tagged_notes tx SUBMITTED_TAG)) <$> ledger
       | _, _ => ledger
       end.

Definition tx_ticks : nat :=
  if hp_dry_run_mode config then 0
  else match xano_request env tx with Ok _ => 2 | Throw _ => 1 end.

Definition tx_counters (c : Counters) : Counters :=
  if succeeds
  then mkCounters (c_pending c) (c_submitted c + 1) (c_paid c) (c_failed c)
                  (c_processed_today c)
  else mkCounters (c_pending c) (c_submitted c) (c_paid c) (c_failed c + 1)
                  (c_processed_today c).

Definition sys_after (s : Sys) : Sys :=
  let w := s_world s in
  mkSys (with_entry (s_state s) (tx_id tx)
           (entry_after (w_clock w)
              (tracked_or_new tx (w_clock w) (transactions (s_state s)))))
        (tx_counters (s_counters s))
        (mkWorld (w_clock w + tx_ticks) (tx_ledger (w_ledger w)) (w_file w)
                 (w_log w ++ tx_log) (w_trace w ++ tx_events)).

Lemma processTransaction_eq s :
  processTransaction config env tx s
  = (Ok (mkProcessResult succeeds outcome_error), sys_after s).
Proof.
  destruct s as [st c w].
  unfold sys_after, succeeds, outcome_error, entry_after, tx_events, tx_log, tx_ledger,
    tx_ticks, tx_counters, succeeds.
  destruct (hp_dry_run_mode config) eqn:Hdry;
    [| destruct (xano_request env tx) as [response|err] eqn:Hx;
       [destruct (ab_updateTransaction_fails env (tx_id tx)) as [uerr|] eqn:U |] ];
    (destruct (transactions st !! tx_id tx) as [e|] eqn:E);
    run; rewrite ?Hdry, ?E; run; rewrite ?Hx; run; rewrite ?U; run;
    entry E; cbn [orb]; unfold id;
    rewrite <- ?app_assoc, <- ?Nat.add_assoc, ?Nat.add_0_r, ?app_nil_r; reflexivity.
Qed.

End Outcome.

(** ** The batch loop *)

Section Batch.
Variable config : Config.
Variable env : Env.

Definition tally_after (tally : RunResult) (tx : Transaction) : RunResult :=
  if succeeds config env tx
  then mkRunResult (processed tally + 1) (submitted_count tally + 1) (failed_count tally)
  else mkRunResult (processed tally + 1) (submitted_count tally) (failed_count tally + 1).

(** The one second pause after each transaction. *)
Definition slept (s : Sys) : Sys :=
  let w := s_world s in
  mkSys (s_state s) (s_counters s)
        (mkWorld (w_clock w + 1) (w_ledger w) (w_file w) (w_log w) (w_trace w)).

Definition sys_after_one (s : Sys) (tx : Transaction) : Sys :=
  slept (sys_after config env tx s).

Definition batch_tally (batch : list Transaction) (tally : RunResult) : RunResult :=
  fold_left tally_after batch tally.

Definition batch_sys (batch : list Transaction) (s : Sys) : Sys :=
  fold_left sys_after_one batch s.

Lemma process_one_eq tally tx s :
  process_one config env tally tx s = (Ok (tally_after tally tx), sys_after_one s tx).
Proof.
  unfold process_one, mbind, M_bind, bind. rewrite processTransaction_eq.
  unfold tally_after, sys_after_one, slept. cbn [pr_success].
  by destruct (succeeds config env tx).
Qed.

Lemma batch_eq batch : ∀ tally s,
  for_of batch tally (process_one config env) s
  = (Ok (batch_tally batch tally), batch_sys batch s).
Proof.
  induction batch as [|tx batch IH]; intros tally s; [done|].
  cbn [for_of]. unfold mbind, M_bind, bind. rewrite process_one_eq. apply IH.
Qed.

(** *** The tally *)

Lemma batch_tally_counts batch : ∀ tally,
  processed (batch_tally batch tally) = processed tally + length batch
  ∧ submitted_count (batch_tally batch tally)
    = submitted_count tally + length (List.filter (succeeds config env) batch)
  ∧ failed_count (batch_tally batch tally)
    = failed_count tally
      + length (List.filter (λ tx, negb (succeeds config env tx)) batch).
Proof.
  induction batch as [|tx batch IH]; intros tally; cbn [batch_tally fold_left].
  - simpl. lia.
  - destruct (IH (tally_after tally tx)) as (Hp & Hs & Hf).
    unfold batch_tally in *. rewrite Hp, Hs, Hf. unfold tally_after. simpl.
    destruct (succeeds config env tx); simpl; lia.
Qed.

(** *** The world *)


Lemma batch_trace batch : ∀ s,
  w_trace (s_world (batch_sys batch s))
  = (w_trace (s_world s) ++ concat (tx_events config env <$> batch))%list.
Proof.
  induction batch as [|tx batch IH]; intros s; cbn [batch_sys fold_left].
  - by rewrite app_nil_r.
  - unfold batch_sys in IH. rewrite IH. simpl. by rewrite app_assoc.
Qed.

Lemma batch_log batch : ∀ s,
  w_log (s_world (batch_sys batch s))
  = (w_log (s_world s) ++ concat (tx_log config env <$> batch))%list.
Proof.
  induction batch as [|tx batch IH]; intros s; cbn [batch_sys fold_left].
  - by rewrite app_nil_r.
  - unfold batch_sys in IH. rewrite IH. simpl. by rewrite app_assoc.
Qed.



End Batch.

(** ** The state store *)

Definition saved_state (st : State) (t : Instant) : State :=
  mkState (transactions st) (Some t) (statistics st).

(** The text [saveState] hands to [fs.writeFileSync]. *)
Definition snapshot (env : Env) (st : State) : string :=
  JSON_stringify env (json_of_state st).

Definition sys_after_save (env : Env) (s : Sys) : Sys :=
  let w := s_world s in
  let st := saved_state (s_state s) (w_clock w) in
  mkSys st (s_counters s)
        (mkWorld (w_clock w) (w_ledger w)
           match fs_write_fails env with
           | None => FileText (snapshot env st)
           | Some _ => w_file w
           end
           (w_log w ++ [match fs_write_fails env with
                        | None => (debug, MsgStateSaved)
                        | Some err => (error, MsgSaveStateFailed err)
                        end])
           (w_trace w ++ [EvWriteFile (snapshot env st)])).

Lemma saveState_eq env s : saveState env s = (Ok (), sys_after_save env s).
Proof.
  destruct s as [st c w]. unfold sys_after_save, snapshot, saved_state.
  run. destruct (fs_write_fails env); run; reflexivity.
Qed.

(** ** Detection *)

Definition add_log (entries : list (Level * LogMsg)) (s : Sys) : Sys :=
  let w := s_world s in
  mkSys (s_state s) (s_counters s)
        (mkWorld (w_clock w) (w_ledger w) (w_file w) (w_log w ++ entries) (w_trace w)).

Lemma forEach_log {A} (lv : Level) (f : A → LogMsg) (l : list A) : ∀ s,
  forEach l (λ x, log lv (f x)) s = (Ok (), add_log ((λ x, (lv, f x)) <$> l) s).
Proof.
  unfold forEach.
  induction l as [|x l IH]; intros [st c [clk led fl lg tr]]; cbn [for_of].
  - unfold add_log. simpl. by rewrite app_nil_r.
  - unfold mbind, M_bind, bind. run. rewrite IH. unfold add_log. simpl.
    by rewrite <- app_assoc.
Qed.

Section Detection.
Variable config : Config.
Variable env : Env.

(** What one account contributes to the candidates: nothing when its fetch
    fails. *)
Definition account_txs (ledger : gmap string (list Transaction)) (account : Account)
  : list Transaction :=
  match ab_getTransactions_fails env (acc_id account) with
  | Some _ => []
  | None => default [] (ledger !! acc_id account)
  end.

Definition account_log (ids : list string) (ledger : gmap string (list Transaction))
    (account : Account) : list (Level * LogMsg) :=
  match ab_getTransactions_fails env (acc_id account) with
  | Some err => [(warning, MsgAccountFetchFailed (acc_name account) err)]
  | None =>
      let hp := List.filter (in_hp_category ids) (default [] (ledger !! acc_id account)) in
      if (0 <? length hp)%nat then [(info, MsgFoundInAccount (length hp) (acc_name account))]
      else []
  end.

Definition sys_after_fetch (ids : list string) (s : Sys) (account : Account) : Sys :=
  let w := s_world s in
  mkSys (s_state s) (s_counters s)
        (mkWorld (w_clock w + 1) (w_ledger w) (w_file w)
                 (w_log w ++ account_log ids (w_ledger w) account)
                 (w_trace w ++ [EvGetTransactions (acc_id account)])).

Lemma fetch_account_eq ids all account s :
  fetch_account env ids all account s
  = (Ok (all ++ List.filter (in_hp_category ids)
                  (account_txs (w_ledger (s_world s)) account))%list,
     sys_after_fetch ids s account).
Proof.
  destruct s as [st c w].
  unfold fetch_account, sys_after_fetch, account_txs, account_log. run.
  destruct (ab_getTransactions_fails env (acc_id account)) as [err|]; run.
  - by rewrite app_nil_r.
  - destruct (0 <? _)%nat eqn:Hlen; run; [done|].
    apply Nat.ltb_ge in Hlen.
    destruct (List.filter _ _); [| simpl in Hlen; lia].
    by rewrite !app_nil_r.
Qed.

Lemma fetch_loop_eq ids accounts : ∀ all s,
  for_of accounts all (fetch_account env ids) s
  = (Ok (all ++ concat ((λ a, List.filter (in_hp_category ids)
                                (account_txs (w_ledger (s_world s)) a))
                        <$> accounts))%list,
     fold_left (sys_after_fetch ids) accounts s).
Proof.
  induction accounts as [|a accounts IH]; intros all s; cbn [for_of fold_left].
  - simpl. by rewrite app_nil_r.
  - unfold mbind, M_bind, bind. rewrite fetch_account_eq, IH.
    rewrite fmap_cons. simpl. by rewrite app_assoc.
Qed.

(** The accounts loop only reads the ledger. *)
Lemma fetch_loop_frame ids accounts : ∀ s,
  let s' := fold_left (sys_after_fetch ids) accounts s in
  s_state s' = s_state s ∧ s_counters s' = s_counters s
  ∧ w_ledger (s_world s') = w_ledger (s_world s)
  ∧ w_file (s_world s') = w_file (s_world s)
  ∧ w_trace (s_world s')
    = (w_trace (s_world s) ++ (EvGetTransactions ∘ acc_id <$> accounts))%list
  ∧ w_log (s_world s')
    = (w_log (s_world s)
       ++ concat (account_log ids (w_ledger (s_world s)) <$> accounts))%list.
Proof.
  induction accounts as [|a accounts IH]; intros s; cbn [fold_left].
  - simpl. by rewrite !app_nil_r.
  - destruct (IH (sys_after_fetch ids s a)) as (H1 & H2 & H3 & H4 & H5 & H6).
    cbn zeta. rewrite H1, H2, H3, H4, H5, H6. simpl.
    by rewrite <- !app_assoc.
Qed.

(** The eligible transactions a run detects, as a function of what the
    collaborators answer and of the ledger. *)
Definition hp_categories (group : CategoryGroup) (allCategories : list Category)
  : list Category :=
  List.filter (λ cat, String.eqb (cat_group_id cat) (grp_id group)) allCategories.

Definition on_budget (accounts : list Account) : list Account :=
  List.filter (λ acc, negb (acc_offbudget acc) && negb (acc_closed acc)) accounts.

Definition candidates (ledger : gmap string (list Transaction)) (accounts : list Account)
  : list Transaction :=
  concat (account_txs ledger <$> on_budget accounts).

Definition detect (ledger : gmap string (list Transaction)) : result (list Transaction) :=
  match ab_getCategoryGroups env with
  | Throw err => Throw err
  | Ok categoryGroups =>
      match List.find (is_hp_group config) categoryGroups with
      | None => Ok []
      | Some group =>
          match ab_getCategories env with
          | Throw err => Throw err
          | Ok allCategories =>
              if (length (hp_categories group allCategories) =? 0)%nat then Ok []
              else
                match ab_getAccounts env with
                | Throw err => Throw err
                | Ok accounts =>
                    Ok (eligibility_filter (cat_id <$> hp_categories group allCategories)
                          (candidates ledger accounts))
                end
          end
      end
  end.

End Detection.

(** Equations for the primitive steps, for stepping through a method without
    unfolding the loops inside it. *)
Definition ticked (n : nat) (s : Sys) : Sys :=
  let w := s_world s in
  mkSys (s_state s) (s_counters s)
        (mkWorld (w_clock w + n) (w_ledger w) (w_file w) (w_log w) (w_trace w)).

Lemma log_eq lv m s : log lv m s = (Ok (), add_log [(lv, m)] s).
Proof. by destruct s as [st c w]. Qed.

Lemma tick_eq n s : tick n s = (Ok (), ticked n s).
Proof. by destruct s as [st c w]. Qed.

Lemma lift_result_eq {A} (r : result A) s : lift_result r s = (r, s).
Proof. by destruct r. Qed.

Lemma getCategoryGroups_eq env s :
  getCategoryGroups env s = (ab_getCategoryGroups env, ticked 1 s).
Proof. destruct s as [st c w]. unfold getCategoryGroups. run. by destruct (ab_getCategoryGroups env). Qed.

Lemma getCategories_eq env s :
  getCategories env s = (ab_getCategories env, ticked 1 s).
Proof. destruct s as [st c w]. unfold getCategories. run. by destruct (ab_getCategories env). Qed.

Lemma getAccounts_eq env s :
  getAccounts env s = (ab_getAccounts env, ticked 1 s).
Proof. destruct s as [st c w]. unfold getAccounts. run. by destruct (ab_getAccounts env). Qed.

(** The transactions a log shows as attempted, in order. *)
Definition attempted_ids (entries : list (Level * LogMsg)) : list string :=
  omap (λ e, match snd e with MsgProcessing id => Some id | _ => None end) entries.

(** The Export Client calls a trace shows, in order. *)
Definition xano_calls (trace : list Event) : list string :=
  omap (λ e, match e with EvSubmitToXano id => Some id | _ => None end) trace.

Lemma attempted_ids_app l k : attempted_ids (l ++ k) = (attempted_ids l ++ attempted_ids k)%list.
Proof. apply omap_app. Qed.

Lemma xano_calls_app l k : xano_calls (l ++ k) = (xano_calls l ++ xano_calls k)%list.
Proof. apply omap_app. Qed.

Lemma attempted_ids_none {A} (f : A → Level * LogMsg) (l : list A) :
  (∀ x, attempted_ids [f x] = []) → attempted_ids (f <$> l) = [].
Proof.
  intros Hf. induction l as [|x l IH]; [done|].
  rewrite fmap_cons. change (f x :: (f <$> l)) with ([f x] ++ (f <$> l))%list.
  by rewrite attempted_ids_app, Hf, IH.
Qed.

Lemma attempted_ids_concat_none {A} (f : A → list (Level * LogMsg)) (l : list A) :
  (∀ x, attempted_ids (f x) = []) → attempted_ids (concat (f <$> l)) = [].
Proof.
  intros Hf. induction l as [|x l IH]; [done|].
  rewrite fmap_cons. simpl. by rewrite attempted_ids_app, Hf, IH.
Qed.

Lemma xano_calls_gets (accounts : list string) :
  xano_calls (EvGetTransactions <$> accounts) = [].
Proof. induction accounts as [|a l IH]; [done|]. by rewrite fmap_cons. Qed.

(** What a phase that only observes the ledger may change: the clock, the
    log, and the trace, by [getTransactions] calls. *)
Record observes (s s' : Sys) : Prop := mkObserves {
  obs_state : s_state s' = s_state s;
  obs_counters : s_counters s' = s_counters s;
  obs_ledger : w_ledger (s_world s') = w_ledger (s_world s);
  obs_file : w_file (s_world s') = w_file (s_world s);
  obs_trace : ∃ accounts,
    w_trace (s_world s') = (w_trace (s_world s) ++ (EvGetTransactions <$> accounts))%list;
  obs_log : ∃ entries,
    w_log (s_world s') = (w_log (s_world s) ++ entries)%list ∧ attempted_ids entries = []
}.

Lemma observes_refl s : observes s s.
Proof. split; try done; exists []; by rewrite app_nil_r. Qed.

Lemma observes_trans s1 s2 s3 : observes s1 s2 → observes s2 s3 → observes s1 s3.
Proof.
  intros [A1 A2 A3 A4 [a A5] [l [A6 A7]]] [B1 B2 B3 B4 [b B5] [k [B6 B7]]].
  split; try congruence.
  - exists (a ++ b)%list. by rewrite B5, A5, fmap_app, app_assoc.
  - exists (l ++ k)%list. by rewrite B6, A6, app_assoc, attempted_ids_app, A7, B7.
Qed.

Lemma observes_add_log entries s :
  attempted_ids entries = [] → observes s (add_log entries s).
Proof. intros H. split; try done; [by exists []; rewrite app_nil_r | by exists entries]. Qed.

Lemma observes_ticked n s : observes s (ticked n s).
Proof. split; try done; exists []; by rewrite app_nil_r. Qed.

Lemma account_log_quiet env ids ledger account :
  attempted_ids (account_log env ids ledger account) = [].
Proof.
  unfold account_log. destruct (ab_getTransactions_fails env _); [done|].
  by destruct (0 <? _)%nat.
Qed.

Lemma observes_fetch_loop env ids accounts s :
  observes s (fold_left (sys_after_fetch env ids) accounts s).
Proof.
  destruct (fetch_loop_frame env ids accounts s) as (H1 & H2 & H3 & H4 & H5 & H6).
  split; try done.
  - exists (acc_id <$> accounts). by rewrite H5, <- list_fmap_compose.
  - eexists; split; [exact H6|].
    apply attempted_ids_concat_none. intros a. apply account_log_quiet.
Qed.

Ltac observe :=
  repeat first [ done | apply observes_refl
               | eapply observes_trans;
                 [| first [ apply observes_add_log;
                            first [ reflexivity
                                  | by apply attempted_ids_none ]
                          | apply observes_ticked
                          | apply observes_fetch_loop | eassumption ] ] ].

Lemma fetchHPTransactions_eq config env s :
  ∃ s', fetchHPTransactions config env s = (detect config env (w_ledger (s_world s)), s')
        ∧ observes s s'.
Proof.
  unfold fetchHPTransactions, detect, try_catch, throw, mbind, mret, M_bind, M_ret, bind, ret.
  rewrite !log_eq, getCategoryGroups_eq.
  destruct (ab_getCategoryGroups env) as [groups|err].
  2: { rewrite log_eq. eexists; split; [done | observe]. }
  rewrite log_eq.
  destruct (List.find (is_hp_group config) groups) as [group|].
  2: { rewrite !log_eq. eexists; split; [done | observe]. }
  rewrite !log_eq, getCategories_eq.
  destruct (ab_getCategories env) as [cats|err].
  2: { rewrite log_eq. eexists; split; [done | observe]. }
  fold (hp_categories group cats).
  rewrite log_eq, forEach_log.
  destruct (length (hp_categories group cats) =? 0)%nat.
  { rewrite log_eq. eexists; split; [done | observe]. }
  rewrite log_eq, getAccounts_eq.
  destruct (ab_getAccounts env) as [accounts|err].
  2: { rewrite log_eq. eexists; split; [done | observe]. }
  fold (on_budget accounts).
  rewrite !log_eq, fetch_loop_eq, !log_eq, forEach_log.
  eexists; split; [apply pair_equal_spec; split; [| reflexivity] | observe].
  f_equal. cbn [app s_world w_ledger add_log ticked].
  unfold eligibility_filter, candidates.
  by rewrite (filter_concat_map (in_hp_category _)).
Qed.

(** ** The run *)

Lemma initializeActualBudget_eq env s :
  ∃ s', initializeActualBudget env s
        = (match ab_init env with Ok _ => Ok true | Throw err => Throw err end, s')
        ∧ observes s s'.
Proof.
  unfold initializeActualBudget, try_catch, throw, mbind, mret, M_bind, M_ret, bind, ret.
  rewrite log_eq, lift_result_eq.
  destruct (ab_init env) as [u|err].
  - rewrite tick_eq, log_eq. eexists; split; [done | observe].
  - rewrite log_eq. eexists; split; [done | observe].
Qed.

Definition sys_after_counters (s : Sys) : Sys :=
  let m := transactions (s_state s) in
  let c :=
    mkCounters (count_status pending m) (count_status submitted m)
               (count_status paid m) (count_status failed m)
               (length (List.filter
                          (λ kv, same_day (tt_created_at (snd kv)) (w_clock (s_world s)))
                          (map_to_list m))) in
  add_log [(info, MsgCounters c)] (mkSys (s_state s) c (s_world s)).

Lemma updateCounters_eq s : updateCounters s = (Ok (), sys_after_counters s).
Proof. by destruct s as [st c w]. Qed.

Definition sys_after_shutdown (env : Env) (s : Sys) : Sys :=
  let w := s_world s in
  mkSys (s_state s) (s_counters s)
        (mkWorld (w_clock w) (w_ledger w) (w_file w)
           (w_log w ++ [match ab_shutdown_fails env with
                        | Some err => (warning, MsgShutdownFailed err)
                        | None => (info, MsgShutdownDone)
                        end])
           (w_trace w ++ [EvShutdown])).

Lemma shutdownActualBudget_eq env s :
  shutdownActualBudget env s = (Ok (), sys_after_shutdown env s).
Proof.
  destruct s as [st c w]. unfold sys_after_shutdown. run.
  by destruct (ab_shutdown_fails env).
Qed.

Definition sys_after_statistics (tally : RunResult) (s : Sys) : Sys :=
  let st := s_state s in
  mkSys (mkState (transactions st) (last_processing st)
           (mkStatistics (total_processed (statistics st) + processed tally)
                         (total_submitted (statistics st) + submitted_count tally)
                         (total_paid (statistics st))
                         (total_failed (statistics st) + failed_count tally)))
        (s_counters s) (s_world s).

Lemma add_statistics_eq tally s :
  add_statistics tally s = (Ok (), sys_after_statistics tally s).
Proof. by destruct s as [st c w]. Qed.

(** The transactions a run attempts, out of the eligible ones. *)
Definition batch_of (config : Config) (eligible : list Transaction) : list Transaction :=
  slice0 eligible
    (Z.min (Z.of_nat (length eligible)) (hp_max_transactions_per_batch config)).

(** A run that ends before the batch loop: the processing state, the state
    file and the ledger are as before; the only calls out are the account
    fetches and the shutdown. *)
Record quiet (s s' : Sys) : Prop := mkQuiet {
  quiet_state : s_state s' = s_state s;
  quiet_ledger : w_ledger (s_world s') = w_ledger (s_world s);
  quiet_file : w_file (s_world s') = w_file (s_world s);
  quiet_trace : ∃ accounts,
    w_trace (s_world s')
    = (w_trace (s_world s) ++ (EvGetTransactions <$> accounts) ++ [EvShutdown])%list;
  quiet_log : ∃ entries,
    w_log (s_world s') = (w_log (s_world s) ++ entries)%list ∧ attempted_ids entries = []
}.

Lemma quiet_intro s s1 s' :
  observes s s1 →
  s_state s' = s_state s1 →
  w_ledger (s_world s') = w_ledger (s_world s1) →
  w_file (s_world s') = w_file (s_world s1) →
  w_trace (s_world s') = (w_trace (s_world s1) ++ [EvShutdown])%list →
  (∃ entries, w_log (s_world s') = (w_log (s_world s1) ++ entries)%list
              ∧ attempted_ids entries = []) →
  quiet s s'.
Proof.
  intros [A1 A2 A3 A4 [a A5] [l [A6 A7]]] B1 B2 B3 B4 [k [B5 B6]].
  split; try congruence.
  - exists a. by rewrite B4, A5, <- app_assoc.
  - exists (l ++ k)%list. by rewrite B5, A6, app_assoc, attempted_ids_app, A7, B6.
Qed.

Section Run.
Variable config : Config.
Variable env : Env.

Ltac start_run s :=
  unfold processAllTransactions, try_finally, try_catch, throw,
    mbind, mret, M_bind, M_ret, bind, ret;
  rewrite log_eq;
  let s1 := fresh "s1" in let E := fresh "Einit" in let O := fresh "Oinit" in
  destruct (initializeActualBudget_eq env (add_log [(info, MsgRunStart)] s))
    as (s1 & E & O);
  rewrite E; clear E.

Lemma run_init_fails s err :
  ab_init env = Throw err →
  ∃ s', processAllTransactions config env s = (Throw err, s') ∧ quiet s s'.
Proof.
  intros Hinit. start_run s. rewrite Hinit, log_eq, shutdownActualBudget_eq.
  eexists; split; [done|].
  apply (quiet_intro _ s1); try done; [observe|].
  eexists. cbn [sys_after_shutdown add_log s_world w_log]. rewrite <- app_assoc.
  split; [reflexivity|]. by destruct (ab_shutdown_fails env).
Qed.

Ltac detect_in s1 Hdetect :=
  let s2 := fresh "s2" in let E := fresh "Efetch" in let O := fresh "Ofetch" in
  destruct (fetchHPTransactions_eq config env s1) as (s2 & E & O);
  rewrite E; clear E;
  match goal with
  | O1 : observes _ s1 |- _ => rewrite (obs_ledger _ _ O1)
  end;
  cbn [add_log s_world w_ledger]; rewrite Hdetect.

Lemma run_detect_fails s u err :
  ab_init env = Ok u →
  detect config env (w_ledger (s_world s)) = Throw err →
  ∃ s', processAllTransactions config env s = (Throw err, s') ∧ quiet s s'.
Proof.
  intros Hinit Hdetect. start_run s. rewrite Hinit. detect_in s1 Hdetect.
  rewrite log_eq, shutdownActualBudget_eq.
  eexists; split; [done|].
  apply (quiet_intro _ s2); try done; [observe|].
  eexists. cbn [sys_after_shutdown sys_after_counters add_log s_world w_log].
  rewrite <- ?app_assoc.
  split; [reflexivity|]. by destruct (ab_shutdown_fails env).
Qed.

Lemma run_nothing_eligible s u :
  ab_init env = Ok u →
  detect config env (w_ledger (s_world s)) = Ok [] →
  ∃ s', processAllTransactions config env s = (Ok (mkRunResult 0 0 0), s') ∧ quiet s s'.
Proof.
  intros Hinit Hdetect. start_run s. rewrite Hinit. detect_in s1 Hdetect.
  cbn [length Nat.eqb]. rewrite log_eq, updateCounters_eq, shutdownActualBudget_eq.
  eexists; split; [done|].
  apply (quiet_intro _ s2); try done; [observe|].
  eexists. cbn [sys_after_shutdown sys_after_counters add_log s_world w_log].
  rewrite <- ?app_assoc.
  split; [reflexivity|]. by destruct (ab_shutdown_fails env).
Qed.

(** A run with something to process: [s1] is the system when the batch
    loop starts, [s2] when it ends. *)
Lemma run_batch s u eligible :
  ab_init env = Ok u →
  detect config env (w_ledger (s_world s)) = Ok eligible →
  eligible ≠ [] →
  let batch := batch_of config eligible in
  let tally := batch_tally config env batch (mkRunResult 0 0 0) in
  ∃ s1 s',
    observes s s1
    ∧ processAllTransactions config env s = (Ok tally, s')
    ∧ let s2 := batch_sys config env batch s1 in
      let saved := sys_after_save env (sys_after_statistics tally s2) in
      s_state s' = s_state saved
      ∧ w_file (s_world s') = w_file (s_world saved)
      ∧ w_ledger (s_world s') = w_ledger (s_world s2)
      ∧ w_trace (s_world s') = (w_trace (s_world saved) ++ [EvShutdown])%list
      ∧ ∃ entries, w_log (s_world s') = (w_log (s_world saved) ++ entries)%list
                   ∧ attempted_ids entries = [].
Proof.
  intros Hinit Hdetect Hne batch tally. start_run s. rewrite Hinit.
  detect_in s1 Hdetect.
  assert ((length eligible =? 0)%nat = false) as -> by (by destruct eligible).
  fold (batch_of config eligible). fold batch.
  rewrite log_eq, batch_eq. fold tally.
  rewrite add_statistics_eq, saveState_eq, updateCounters_eq, log_eq,
    shutdownActualBudget_eq.
  exists (add_log [(info, MsgBatch (length batch)
                     (Z.min (Z.of_nat (length eligible))
                            (hp_max_transactions_per_batch config)))] s2).
  eexists. split; [observe|]. split; [reflexivity|].
  cbn zeta. repeat split; try done.
  eexists. cbn [sys_after_shutdown add_log sys_after_counters s_world w_log].
  rewrite <- !app_assoc. split; [reflexivity|].
  by destruct (ab_shutdown_fails env).
Qed.

End Run.

(** ** How the tracked entries evolve *)








Section Entries.
Variable config : Config.
Variable env : Env.





Lemma transactions_after_one s tx :
  transactions (s_state (sys_after_one config env s tx))
  = <[tx_id tx :=
        entry_after config env tx (w_clock (s_world s))
          (tracked_or_new tx (w_clock (s_world s)) (transactions (s_state s)))]>
      (transactions (s_state s)).
Proof. reflexivity. Qed.





(** Entries of transactions outside the batch are left alone. *)
Lemma batch_untouched batch k : ∀ s,
  k ∉ tx_id <$> batch →
  transactions (s_state (batch_sys config env batch s)) !! k
  = transactions (s_state s) !! k.
Proof.
  induction batch as [|tx batch IH]; intros s Hk; cbn [batch_sys fold_left]; [done|].
  rewrite fmap_cons in Hk. apply not_elem_of_cons in Hk as [Hne Hk].
  unfold batch_sys in IH. rewrite IH by done.
  rewrite transactions_after_one. by rewrite lookup_insert_ne.
Qed.



End Entries.

(** * The claims *)

(** ** A small ledger to run the processor on *)

Module Scenario.

Definition hp_group : CategoryGroup := mkGroup "g-hp" "HP".
Definition fuel : Category := mkCategory "c-fuel" "Fuel" "g-hp".
Definition groceries : Category := mkCategory "c-food" "Groceries" "g-home".
Definition checking : Account := mkAccount "a-1" "Checking" false false.
Definition card : Account := mkAccount "a-2" "Card" false false.

Definition t1 : Transaction :=
  mkTransaction "t1" (Some "Shell") (-4500) "2024-05-01" (Some "c-fuel") true None "a-1".
Definition t2 : Transaction :=
  mkTransaction "t2" (Some "BP") (-3000) "2024-05-02" (Some "c-fuel") true (Some "work trip")
                "a-1".
Definition t3 : Transaction :=
  mkTransaction "t3" (Some "Esso") (-2550) "2024-05-03" (Some "c-fuel") true None "a-2".
(** Not eligible: other category, not cleared, already tagged. *)
Definition t4 : Transaction :=
  mkTransaction "t4" (Some "Market") (-1200) "2024-05-03" (Some "c-food") true None "a-2".
Definition t5 : Transaction :=
  mkTransaction "t5" (Some "Shell") (-800) "2024-05-04" (Some "c-fuel") false None "a-2".
Definition t6 : Transaction :=
  mkTransaction "t6" (Some "Shell") (-900) "2024-05-05" (Some "c-fuel") true
                (Some "paid #HP-Submitted by card") "a-2".

Definition ledger : gmap string (list Transaction) :=
  <["a-1" := [t1; t2]]> (<["a-2" := [t3; t4; t5; t6]]> ∅).

(** Every collaborator answers; the export service accepts and returns an
    identifier. *)
Definition env_ok : Env :=
  {| ab_init := Ok ();
     ab_getCategoryGroups := Ok [mkGroup "g-home" "Household"; hp_group];
     ab_getCategories := Ok [groceries; fuel];
     ab_getAccounts := Ok [checking; card];
     ab_getTransactions_fails := λ _, None;
     ab_updateTransaction_fails := λ _, None;
     ab_shutdown_fails := None;
     xano_request := λ _, Ok (JObj [("id", JNum 7)]);
     fs_write_fails := None;
     JSON_parse := λ _, None;
     JSON_stringify := λ _, "{...}" |}.

(** As [env_ok], but the ledger refuses every notes update. *)
Definition env_tag_fails : Env :=
  {| ab_init := Ok ();
     ab_getCategoryGroups := Ok [mkGroup "g-home" "Household"; hp_group];
     ab_getCategories := Ok [groceries; fuel];
     ab_getAccounts := Ok [checking; card];
     ab_getTransactions_fails := λ _, None;
     ab_updateTransaction_fails := λ _, Some "network-failure";
     ab_shutdown_fails := None;
     xano_request := λ _, Ok (JObj [("id", JNum 7)]);
     fs_write_fails := None;
     JSON_parse := λ _, None;
     JSON_stringify := λ _, "{...}" |}.

(** As [env_ok], but the fetch of account [a-1] fails. *)
Definition env_account_fails : Env :=
  {| ab_init := Ok ();
     ab_getCategoryGroups := Ok [mkGroup "g-home" "Household"; hp_group];
     ab_getCategories := Ok [groceries; fuel];
     ab_getAccounts := Ok [checking; card];
     ab_getTransactions_fails := λ a, if String.eqb a "a-1" then Some "timeout" else None;
     ab_updateTransaction_fails := λ _, None;
     ab_shutdown_fails := None;
     xano_request := λ _, Ok (JObj [("id", JNum 7)]);
     fs_write_fails := None;
     JSON_parse := λ _, None;
     JSON_stringify := λ _, "{...}" |}.


Definition live : Config := mkConfig "g-hp" false 50.
Definition dry : Config := mkConfig "g-hp" true 50.

Definition world (l : gmap string (list Transaction)) (file : FileContent) : World :=
  mkWorld 1000 l file [] [].

(** A freshly constructed processor: no state file yet. *)
Definition fresh : Sys := mkSys default_state zero_counters (world ledger FileMissing).

End Scenario.

(** ** C2: the eligibility filter *)

(** C2. For every list of fetched transactions and every list of category
    identifiers of the business-expense group, the filter returns exactly the
    transactions that are cleared, carry a category of the group, and have
    neither [#HP-Submitted] nor [#HP-Paid] at any position of their notes, in
    the order of the input; a transaction without category is never selected,
    absent notes count as unmarked, and a transaction carrying a marker
    anywhere in its notes is never selected. (A missing category is [null],
    [undefined] or the empty string, all falsy in the category test.) *)
Theorem eligibility_filter_contract (hpCategoryIds : list string)
    (fetched : list Transaction) :
  (∃ keep : Transaction → bool,
      (∀ t, keep t = true ↔ spec_eligible hpCategoryIds t)
      ∧ eligibility_filter hpCategoryIds fetched = List.filter keep fetched)
  ∧ (∀ t, t ∈ eligibility_filter hpCategoryIds fetched
          ↔ t ∈ fetched ∧ spec_eligible hpCategoryIds t)
  ∧ (∀ t, tx_category t = None → t ∉ eligibility_filter hpCategoryIds fetched)
  ∧ (∀ t, tx_notes t = None → ¬ has_marker t)
  ∧ (∀ t pre post m, (m = SUBMITTED_TAG ∨ m = PAID_TAG) →
        tx_notes t = Some (pre ++ m ++ post) →
        t ∉ eligibility_filter hpCategoryIds fetched).
Proof.
  pose proof (eligibility_filter_elem hpCategoryIds fetched) as Hin.
  split; [| split; [exact Hin | split; [| split]]].
  - exists (λ t, in_hp_category hpCategoryIds t && step5_keep t).
    split; [apply keep_spec | apply eligibility_filter_fused].
  - intros t Hcat [_ (_ & (c & Hc & _) & _)]%Hin. congruence.
  - intros t Hn (n & _ & _ & _ & Hsome & _). congruence.
  - intros t pre post m Hm Hn [_ (_ & _ & Hnot)]%Hin.
    apply Hnot. by exists (pre ++ m ++ post), pre, post, m.
Qed.

(** ** C9: loading the state *)

(** The contents of the state file from which no snapshot can be read. *)
Inductive no_snapshot (env : Env) : FileContent → Prop :=
| snapshot_missing : no_snapshot env FileMissing
| snapshot_unreadable err : no_snapshot env (FileUnreadable err)
| snapshot_corrupt text : JSON_parse env text = None → no_snapshot env (FileText text).

(** C9. [loadState] never throws, whatever the state file holds; when the
    file is missing, unreadable or not valid JSON it returns the default state
    (no transactions, [last_processing] null, statistics all zero) and leaves
    the processor and the file as they were. *)
Theorem loadState_never_throws (env : Env) (s : Sys) :
  (∃ state s', loadState env s = (Ok state, s'))
  ∧ (no_snapshot env (w_file (s_world s)) →
     ∃ s', loadState env s = (Ok (json_of_state default_state), s')
           ∧ s_state s' = s_state s
           ∧ w_file (s_world s') = w_file (s_world s))
  ∧ json_of_state default_state
    = JObj [("transactions", JObj []);
            ("last_processing", JNull);
            ("statistics",
             JObj [("total_processed", JNum 0); ("total_submitted", JNum 0);
                   ("total_paid", JNum 0); ("total_failed", JNum 0)])].
Proof.
  destruct s as [st c [clk led file lg tr]].
  split; [| split; [| reflexivity]].
  - unfold loadState, existsSync, readFileSync, parse, read_transactions. run.
    destruct file as [|err|text]; run; eauto.
    destruct (JSON_parse env text) as [j|]; run; eauto.
    destruct j; run; eauto.
  - cbn [s_world w_file s_state]. intros Hno.
    unfold loadState, existsSync, readFileSync, parse, read_transactions. run.
    inversion Hno as [|err|text Hparse]; subst; run; eauto.
    rewrite Hparse. run. eauto.
Qed.

(** A corrupt state file, on the small ledger. *)
Lemma loadState_never_throws_witness :
  ∃ s', loadState Scenario.env_ok
          (mkSys default_state zero_counters
                 (Scenario.world Scenario.ledger (FileText "{ transactions: ")))
        = (Ok (json_of_state default_state), s')
        ∧ s_state s' = default_state
        ∧ w_file (s_world s') = FileText "{ transactions: ".
Proof.
  apply (proj1 (proj2 (loadState_never_throws Scenario.env_ok
                         (mkSys default_state zero_counters
                            (Scenario.world Scenario.ledger
                               (FileText "{ transactions: ")))))).
  apply snapshot_corrupt. reflexivity.
Defined.

(** ** C5: the manual trigger *)

(** C5, as the code has it. The trigger handler never rejects a request: it
    starts a new processor for every request, also while others it started
    are still running, and writes no response at that point; the responses
    the endpoint ever writes carry status 200, 500 or 408, never a conflict.
    The earlier handler answers every request 200 without starting anything. *)
Theorem trigger_never_rejected (s : Dashboard.Server) (inputs : list Dashboard.Input) :
  Dashboard.running (Dashboard.hp_process s) = Dashboard.spawned s :: Dashboard.running s
  ∧ Dashboard.run_in_progress (Dashboard.hp_process s) = true
  ∧ Dashboard.sent (Dashboard.hp_process s) = Dashboard.sent s
  ∧ (∀ r, r ∈ Dashboard.sent (Dashboard.serve Dashboard.idle_server inputs) →
          Dashboard.status_code r.2 ∈ [200; 500; 408])
  ∧ (∃ r, Dashboard.sent (Dashboard.hp_process_mock s) = (Dashboard.sent s ++ [r])%list
          ∧ Dashboard.status_code r.2 = 200 ∧ Dashboard.success r.2 = true
          ∧ Dashboard.running (Dashboard.hp_process_mock s) = Dashboard.running s).
Proof.
  repeat split.
  - assert (∀ s0, (∀ r, r ∈ Dashboard.sent s0 → Dashboard.status_code r.2 ∈ [200; 500; 408]) →
              ∀ r, r ∈ Dashboard.sent (Dashboard.serve s0 inputs) →
                   Dashboard.status_code r.2 ∈ [200; 500; 408]) as Hinv.
    { induction inputs as [|i inputs IH]; intros s0 H0; [exact H0|].
      cbn [Dashboard.serve fold_left]. apply IH.
      intros r. destruct i as [|child code output|child]; cbn [Dashboard.step].
      - apply H0.
      - unfold Dashboard.on_close. cbn [Dashboard.sent].
        intros [Hr | Hr%list_elem_of_singleton]%elem_of_app; [by apply H0|]. subst r.
        destruct output; [destruct (code =? 0)%Z |]; simpl; set_solver.
      - unfold Dashboard.on_timeout. cbn [Dashboard.sent].
        intros [Hr | Hr%list_elem_of_singleton]%elem_of_app; [by apply H0|]. subst r.
        simpl. set_solver. }
    apply Hinv. intros r Hr. by apply elem_of_nil in Hr.
  - eexists. repeat split.
Qed.

(** A trigger that arrives while a run is in progress is not rejected: a
    second processor is started next to the first, and nothing is answered. *)
Lemma trigger_during_run_starts_second_run :
  Dashboard.run_in_progress (Dashboard.serve Dashboard.idle_server [Dashboard.Trigger]) = true
  ∧ Dashboard.serve Dashboard.idle_server [Dashboard.Trigger; Dashboard.Trigger]
    = Dashboard.mkServer [1; 0] 2 [].
Proof. split; reflexivity. Qed.

(** ** C3: the batch bound *)

Lemma batch_of_take config eligible :
  (0 ≤ hp_max_transactions_per_batch config)%Z →
  batch_of config eligible
  = take (min (length eligible) (Z.to_nat (hp_max_transactions_per_batch config))) eligible.
Proof.
  intros Hpos. unfold batch_of, slice0.
  assert ((Z.of_nat (length eligible) `min` hp_max_transactions_per_batch config <? 0)%Z
          = false) as -> by (apply Z.ltb_ge; lia).
  f_equal. lia.
Qed.

Lemma attempted_ids_batch config env batch :
  attempted_ids (concat (tx_log config env <$> batch)) = tx_id <$> batch.
Proof.
  induction batch as [|tx batch IH]; [done|].
  rewrite !fmap_cons. simpl. rewrite attempted_ids_app, IH. f_equal.
  unfold tx_log. destruct (hp_dry_run_mode config); [done|].
  destruct (xano_request env tx); [| done].
  by destruct (ab_updateTransaction_fails env (tx_id tx)).
Qed.

(** [loadConfiguration] never yields a batch size of zero: a setting that
    is missing, not a number or zero becomes 50. A negative setting is kept,
    and [slice] then counts from the end of the list. *)
Lemma loadConfiguration_batch_nonzero group_id dry_run batch :
  hp_max_transactions_per_batch (loadConfiguration group_id dry_run batch) ≠ 0%Z.
Proof.
  unfold loadConfiguration, parseInt_or. cbn [hp_max_transactions_per_batch].
  destruct batch as [z|]; [| done]. destruct (z =? 0)%Z eqn:E; [done|].
  by apply Z.eqb_neq.
Qed.

Lemma negative_batch_size_counts_from_end :
  batch_of (mkConfig "g-hp" false (-1)) [Scenario.t1; Scenario.t2; Scenario.t3]
  = [Scenario.t1; Scenario.t2].
Proof. reflexivity. Qed.

(** The log of a run that reached the batch loop shows exactly the batch as
    attempted. *)
Lemma run_batch_attempted config env s u eligible :
  ab_init env = Ok u →
  detect config env (w_ledger (s_world s)) = Ok eligible →
  ∃ tally s',
    processAllTransactions config env s = (Ok tally, s')
    ∧ processed tally = length (batch_of config eligible)
    ∧ attempted_ids (w_log (s_world s'))
      = (attempted_ids (w_log (s_world s)) ++ (tx_id <$> batch_of config eligible))%list.
Proof.
  intros Hinit Hdetect.
  destruct (decide (eligible = [])) as [->|Hne].
  - destruct (run_nothing_eligible config env s u Hinit Hdetect)
      as (s' & Hrun & [_ _ _ _ (entries & Hlog & Hnone)]).
    exists (mkRunResult 0 0 0), s'. split; [done|].
    rewrite Hlog, attempted_ids_app, Hnone.
    unfold batch_of, slice0. by rewrite take_nil.
  - destruct (run_batch config env s u eligible Hinit Hdetect Hne)
      as (s1 & s' & [_ _ _ _ _ (e1 & Hlog1 & Hnone1)] & Hrun & _ & _ & _ & _
          & (e2 & Hlog2 & Hnone2)).
    eexists _, s'. split; [exact Hrun|]. split.
    + destruct (batch_tally_counts config env (batch_of config eligible)
                  (mkRunResult 0 0 0)) as [-> _]. done.
    + rewrite Hlog2. cbn [sys_after_save sys_after_statistics s_world w_log].
      rewrite batch_log, Hlog1, !attempted_ids_app, Hnone1, Hnone2,
        attempted_ids_batch.
      destruct (fs_write_fails env); simpl; by rewrite !app_nil_r.
Qed.



(** ** Export Client calls of a run *)

Lemma xano_calls_batch config env batch :
  xano_calls (concat (tx_events config env <$> batch))
  = if hp_dry_run_mode config then [] else tx_id <$> batch.
Proof.
  induction batch as [|tx batch IH]; [by destruct (hp_dry_run_mode config)|].
  rewrite !fmap_cons. simpl. rewrite xano_calls_app, IH.
  unfold tx_events. destruct (hp_dry_run_mode config); [done|].
  by destruct (xano_request env tx).
Qed.

Lemma batch_of_nil config : batch_of config [] = [].
Proof. unfold batch_of, slice0. apply take_nil. Qed.

(** A run that gets past initialisation and detection returns, and calls the
    Export Client for the batch, once per transaction and in order, unless it
    is a dry run. *)
Lemma run_xano_calls config env s u eligible :
  ab_init env = Ok u →
  detect config env (w_ledger (s_world s)) = Ok eligible →
  ∃ tally s',
    processAllTransactions config env s = (Ok tally, s')
    ∧ tally = batch_tally config env (batch_of config eligible) (mkRunResult 0 0 0)
    ∧ xano_calls (w_trace (s_world s'))
      = (xano_calls (w_trace (s_world s))
         ++ if hp_dry_run_mode config then [] else tx_id <$> batch_of config eligible)%list.
Proof.
  intros Hinit Hdetect.
  destruct (decide (eligible = [])) as [->|Hne].
  - destruct (run_nothing_eligible config env s u Hinit Hdetect)
      as (s' & Hrun & [_ _ _ (accounts & Htrace) _]).
    exists (mkRunResult 0 0 0), s'. rewrite batch_of_nil. split; [done|]. split; [done|].
    rewrite Htrace, !xano_calls_app, xano_calls_gets.
    by destruct (hp_dry_run_mode config).
  - destruct (run_batch config env s u eligible Hinit Hdetect Hne)
      as (s1 & s' & [_ _ _ _ (accounts & Htrace1) _] & Hrun & _ & _ & _ & Htrace & _).
    eexists _, s'. split; [exact Hrun|]. split; [done|].
    rewrite Htrace. cbn [sys_after_save sys_after_statistics s_world w_trace].
    rewrite batch_trace, Htrace1, !xano_calls_app, xano_calls_gets, xano_calls_batch.
    simpl. by rewrite !app_nil_r.
Qed.


(** ** C7: dry runs *)




(** ** C10: a failed tag write *)

(** The Export Client accepted the transaction. *)
Definition accepted (env : Env) (tx : Transaction) : bool :=
  match xano_request env tx with Ok _ => true | Throw _ => false end.





(** ** C6: one account's fetch fails *)

(** The log of a detection that reaches the accounts loop holds what each
    account's fetch logged. *)
Lemma fetch_logs_accounts config env s groups group cats accounts :
  ab_getCategoryGroups env = Ok groups →
  List.find (is_hp_group config) groups = Some group →
  ab_getCategories env = Ok cats →
  hp_categories group cats ≠ [] →
  ab_getAccounts env = Ok accounts →
  ∀ entry,
    entry ∈ concat (account_log env (cat_id <$> hp_categories group cats)
                      (w_ledger (s_world s)) <$> on_budget accounts) →
    entry ∈ w_log (s_world (fetchHPTransactions config env s).2).
Proof.
  intros Hgroups Hfind Hcats Hne Haccounts entry Hin.
  unfold fetchHPTransactions, try_catch, throw, mbind, mret, M_bind, M_ret, bind, ret.
  rewrite !log_eq, getCategoryGroups_eq, Hgroups, log_eq, Hfind.
  rewrite !log_eq, getCategories_eq, Hcats.
  fold (hp_categories group cats).
  rewrite log_eq, forEach_log.
  assert ((length (hp_categories group cats) =? 0)%nat = false) as ->.
  { destruct (hp_categories group cats); done. }
  rewrite log_eq, getAccounts_eq, Haccounts.
  fold (on_budget accounts).
  rewrite !log_eq, fetch_loop_eq, !log_eq, forEach_log.
  cbn [snd add_log s_world w_log].
  match goal with
  | |- context [fold_left (sys_after_fetch ?e ?i) ?a ?s0] =>
      destruct (fetch_loop_frame e i a s0) as (_ & _ & _ & _ & _ & Hlog)
  end.
  cbn zeta in Hlog. rewrite Hlog. cbn [add_log ticked s_world w_log w_ledger].
  rewrite !elem_of_app. repeat first [ right; exact Hin | left ].
Qed.

Lemma candidates_spec env ledger accounts t :
  t ∈ candidates env ledger accounts
  ↔ ∃ a, a ∈ on_budget accounts
         ∧ ab_getTransactions_fails env (acc_id a) = None
         ∧ t ∈ default [] (ledger !! acc_id a).
Proof.
  unfold candidates. rewrite elem_of_concat. split.
  - intros (l & Ht & (a & -> & Ha)%list_elem_of_fmap).
    unfold account_txs in Ht.
    destruct (ab_getTransactions_fails env (acc_id a)) eqn:E.
    + by apply elem_of_nil in Ht.
    + by exists a.
  - intros (a & Ha & Hok & Ht). exists (account_txs env ledger a). split.
    + unfold account_txs. by rewrite Hok.
    + apply list_elem_of_fmap. by exists a.
Qed.

(** C6. When the fetch of an account fails, a warning naming the account is
    logged, the candidates are exactly the transactions of the on-budget
    accounts whose fetch did not fail, the detection returns the eligible
    ones among them, and the run returns rather than throws. *)
Theorem account_failure_isolated (config : Config) (env : Env) (s : Sys)
    (groups : list CategoryGroup) (group : CategoryGroup) (cats : list Category)
    (accounts : list Account) :
  ab_getCategoryGroups env = Ok groups →
  List.find (is_hp_group config) groups = Some group →
  ab_getCategories env = Ok cats →
  hp_categories group cats ≠ [] →
  ab_getAccounts env = Ok accounts →
  let ids := cat_id <$> hp_categories group cats in
  let ledger := w_ledger (s_world s) in
  (∃ s',
      fetchHPTransactions config env s
      = (Ok (eligibility_filter ids (candidates env ledger accounts)), s')
      ∧ ∀ a err, a ∈ on_budget accounts →
                 ab_getTransactions_fails env (acc_id a) = Some err →
                 (warning, MsgAccountFetchFailed (acc_name a) err) ∈ w_log (s_world s'))
  ∧ (∀ t, t ∈ candidates env ledger accounts
          ↔ ∃ a, a ∈ on_budget accounts
                 ∧ ab_getTransactions_fails env (acc_id a) = None
                 ∧ t ∈ default [] (ledger !! acc_id a))
  ∧ (∀ u, ab_init env = Ok u →
          ∃ tally s', processAllTransactions config env s = (Ok tally, s')).
Proof.
  intros Hgroups Hfind Hcats Hne Haccounts ids ledger.
  assert (detect config env ledger
          = Ok (eligibility_filter ids (candidates env ledger accounts))) as Hdetect.
  { unfold detect. rewrite Hgroups, Hfind, Hcats, Haccounts.
    destruct (hp_categories group cats); done. }
  split; [| split].
  - destruct (fetchHPTransactions_eq config env s) as (s' & Hfetch & _).
    fold ledger in Hfetch. rewrite Hdetect in Hfetch.
    exists s'. split; [done|]. intros a err Ha Hfail.
    pose proof (fetch_logs_accounts config env s groups group cats accounts
                  Hgroups Hfind Hcats Hne Haccounts) as Hlog.
    rewrite Hfetch in Hlog. cbn [snd] in Hlog. apply Hlog.
    apply elem_of_concat. eexists. split.
    2: { apply list_elem_of_fmap. exists a. split; [reflexivity | exact Ha]. }
    unfold account_log. rewrite Hfail. by left.
  - intros t. apply candidates_spec.
  - intros u Hinit.
    destruct (run_xano_calls config env s u _ Hinit Hdetect) as (tally & s' & Hrun & _).
    by exists tally, s'.
Qed.

(** On the small ledger, with the fetch of account [a-1] failing: the
    warning is logged, [t3] of account [a-2] is still detected, and the run
    returns. *)
Lemma account_failure_isolated_witness :
  (∃ s',
      fetchHPTransactions Scenario.live Scenario.env_account_fails Scenario.fresh
      = (Ok [Scenario.t3], s')
      ∧ (warning, MsgAccountFetchFailed "Checking" "timeout") ∈ w_log (s_world s'))
  ∧ ∃ tally s',
      processAllTransactions Scenario.live Scenario.env_account_fails Scenario.fresh
      = (Ok tally, s').
Proof.
  destruct (account_failure_isolated Scenario.live Scenario.env_account_fails
              Scenario.fresh [mkGroup "g-home" "Household"; Scenario.hp_group]
              Scenario.hp_group [Scenario.groceries; Scenario.fuel]
              [Scenario.checking; Scenario.card])
    as ((s' & Hfetch & Hwarn) & _ & Hrun);
    [reflexivity | reflexivity | reflexivity | discriminate | reflexivity |].
  split.
  - exists s'. split.
    + rewrite Hfetch. reflexivity.
    + apply (Hwarn Scenario.checking "timeout"); [| reflexivity].
      vm_compute. by left.
  - exact (Hrun () eq_refl).
Defined.

(** ** C8: persisting *)





(** ** C1: re-running after a submission *)

(** C1, as stated, fails. On the small ledger with every tag write refused,
    a first run submits [t1], [t2] and [t3] and records them as [submitted];
    the notes carry no tag, so a second run over the state the first one left
    calls the Export Client for all three again. *)
Lemma resubmitted_after_failed_tag :
  let s1 := (processAllTransactions Scenario.live Scenario.env_tag_fails Scenario.fresh).2 in
  let s2 := (processAllTransactions Scenario.live Scenario.env_tag_fails s1).2 in
  tt_status <$> transactions (s_state s1) !! "t1" = Some submitted
  ∧ xano_calls (w_trace (s_world s1)) = ["t1"; "t2"; "t3"]
  ∧ xano_calls (w_trace (s_world s2)) = ["t1"; "t2"; "t3"; "t1"; "t2"; "t3"].
Proof. vm_compute. repeat split. Qed.

(** What detection returns was fetched from the ledger and carries no
    marker. *)
Lemma detect_sound config env ledger eligible t :
  detect config env ledger = Ok eligible →
  t ∈ eligible →
  ¬ has_marker t ∧ ∃ account txs, ledger !! account = Some txs ∧ t ∈ txs.
Proof.
  unfold detect. intros Hdetect Hin.
  destruct (ab_getCategoryGroups env) as [groups|]; [| done].
  destruct (List.find _ groups) as [group|];
    [| injection Hdetect as <-; by apply elem_of_nil in Hin].
  destruct (ab_getCategories env) as [cats|]; [| done].
  destruct (length _ =? 0)%nat;
    [injection Hdetect as <-; by apply elem_of_nil in Hin |].
  destruct (ab_getAccounts env) as [accounts|]; [| done].
  injection Hdetect as <-.
  apply eligibility_filter_elem in Hin as [Hc (_ & _ & Hnot)].
  split; [exact Hnot|].
  apply candidates_spec in Hc as (a & _ & _ & Ht).
  destruct (ledger !! acc_id a) as [txs|] eqn:E; [by eauto | by apply elem_of_nil in Ht].
Qed.

Lemma batch_of_subset config eligible t : t ∈ batch_of config eligible → t ∈ eligible.
Proof. unfold batch_of, slice0. apply subseteq_take. Qed.

(** C1, as the code has it. A run does not call the Export Client for an
    identifier when every ledger transaction with that identifier carries
    [#HP-Submitted] or [#HP-Paid] in its notes. The guard is the notes tag
    alone: the status recorded in the processing state is not consulted. *)
Theorem no_resubmission_when_tagged (config : Config) (env : Env) (s : Sys) (id : string) :
  (∀ account txs t,
      w_ledger (s_world s) !! account = Some txs → t ∈ txs → tx_id t = id →
      has_marker t) →
  ∃ new,
    xano_calls (w_trace (s_world (processAllTransactions config env s).2))
    = (xano_calls (w_trace (s_world s)) ++ new)%list
    ∧ id ∉ new.
Proof.
  intros Htagged.
  destruct (ab_init env) as [u|err] eqn:Hinit.
  2: { destruct (run_init_fails config env s err Hinit)
         as (s' & -> & [_ _ _ (accounts & Htrace) _]).
       exists []. cbn [snd].
       rewrite Htrace, !xano_calls_app, xano_calls_gets. split; [done | set_solver]. }
  destruct (detect config env (w_ledger (s_world s))) as [eligible|err] eqn:Hdetect.
  2: { destruct (run_detect_fails config env s u err Hinit Hdetect)
         as (s' & -> & [_ _ _ (accounts & Htrace) _]).
       exists []. cbn [snd].
       rewrite Htrace, !xano_calls_app, xano_calls_gets. split; [done | set_solver]. }
  destruct (run_xano_calls config env s u eligible Hinit Hdetect)
    as (tally & s' & -> & _ & Hcalls).
  eexists. split; [exact Hcalls|].
  destruct (hp_dry_run_mode config); [set_solver|].
  intros (t & Hid & Hin%batch_of_subset)%list_elem_of_fmap.
  destruct (detect_sound config env _ eligible t Hdetect Hin)
    as (Hnot & account & txs & Hacc & Ht).
  apply Hnot. by apply (Htagged account txs t).
Qed.

(** On the small ledger [t6] carries the tag: a run submits the three
    untagged transactions and not [t6]. *)
Lemma no_resubmission_when_tagged_witness :
  ∃ new,
    xano_calls (w_trace (s_world
      (processAllTransactions Scenario.live Scenario.env_ok Scenario.fresh).2))
    = ([] ++ new)%list
    ∧ "t6" ∉ new.
Proof.
  apply (no_resubmission_when_tagged Scenario.live Scenario.env_ok Scenario.fresh "t6").
  intros account txs t Hacc Ht Hid.
  assert (t = Scenario.t6) as ->.
  { unfold Scenario.fresh, Scenario.world, Scenario.ledger in Hacc. cbn in Hacc.
    apply list_elem_of_In in Ht.
    destruct (decide (account = "a-1")) as [->|H1].
    - rewrite lookup_insert_eq in Hacc. injection Hacc as <-.
      destruct Ht as [<- | [<- | []]]; discriminate Hid.
    - rewrite lookup_insert_ne in Hacc by done.
      destruct (decide (account = "a-2")) as [->|H2].
      + rewrite lookup_insert_eq in Hacc. injection Hacc as <-.
        destruct Ht as [<- | [<- | [<- | [<- | []]]]];
          first [ discriminate Hid | reflexivity ].
      + rewrite lookup_insert_ne in Hacc by done. by rewrite lookup_empty in Hacc. }
  exists "paid #HP-Submitted by card", "paid ", " by card", SUBMITTED_TAG.
  repeat split; auto.
Defined.

(** ** C4: how tracked entries evolve over runs *)








(** * Further properties of the processor *)

(** ** The run, step by step *)

(** The system a run leaves, in full, when detection succeeds: [s2] is the
    system when [fetchHPTransactions] has returned. *)
Definition sys_after_idle_run (env : Env) (s2 : Sys) : Sys :=
  sys_after_shutdown env (sys_after_counters (add_log [(info, MsgNoEligible)] s2)).

Definition sys_after_batch_run (config : Config) (env : Env) (eligible : list Transaction)
    (s2 : Sys) : Sys :=
  let batch := batch_of config eligible in
  let tally := batch_tally config env batch (mkRunResult 0 0 0) in
  let s3 :=
    batch_sys config env batch
      (add_log [(info, MsgBatch (length batch)
                         (Z.min (Z.of_nat (length eligible))
                                (hp_max_transactions_per_batch config)))] s2) in
  sys_after_shutdown env
    (add_log [(info, MsgRunComplete (processed tally) (submitted_count tally)
                                    (failed_count tally))]
       (sys_after_counters (sys_after_save env (sys_after_statistics tally s3)))).

Lemma run_exact config env s u eligible :
  ab_init env = Ok u →
  detect config env (w_ledger (s_world s)) = Ok eligible →
  ∃ s2,
    observes s s2
    ∧ processAllTransactions config env s
      = if decide (eligible = [])
        then (Ok (mkRunResult 0 0 0), sys_after_idle_run env s2)
        else (Ok (batch_tally config env (batch_of config eligible) (mkRunResult 0 0 0)),
              sys_after_batch_run config env eligible s2).
Proof.
  intros Hinit Hdetect.
  unfold processAllTransactions, try_finally, try_catch, throw,
    mbind, mret, M_bind, M_ret, bind, ret.
  rewrite log_eq.
  destruct (initializeActualBudget_eq env (add_log [(info, MsgRunStart)] s))
    as (s1 & -> & O1).
  rewrite Hinit.
  destruct (fetchHPTransactions_eq config env s1) as (s2 & -> & O2).
  rewrite (obs_ledger _ _ O1). cbn [add_log s_world w_ledger]. rewrite Hdetect.
  exists s2. split; [observe|].
  destruct (decide (eligible = [])) as [->|Hne].
  - cbn [length Nat.eqb].
    by rewrite log_eq, updateCounters_eq, shutdownActualBudget_eq.
  - assert ((length eligible =? 0)%nat = false) as -> by (by destruct eligible).
    fold (batch_of config eligible).
    rewrite log_eq, batch_eq, add_statistics_eq, saveState_eq, updateCounters_eq,
      log_eq, shutdownActualBudget_eq.
    reflexivity.
Qed.

(** ** What a run returns, and teardown *)



(** ** Counters *)

Lemma count_status_total (m : gmap string TrackedTransaction) :
  count_status pending m + count_status submitted m + count_status paid m
  + count_status failed m = size m.
Proof.
  unfold count_status. rewrite <- length_map_to_list.
  induction (map_to_list m) as [|[k e] l IH]; [done|].
  cbn [List.filter snd length]. destruct (tt_status e); cbn [Status_eqb length]; lia.
Qed.

(** X2. After a run that resolves, the four status counters are the numbers of
    tracked entries with that status in the state the run leaves, whatever
    the counters were before; the per-transaction increments made on the way
    are overwritten. The four add up to the number of tracked entries. *)
Theorem counters_reflect_state (config : Config) (env : Env) (s : Sys) (u : unit)
    (eligible : list Transaction) :
  ab_init env = Ok u →
  detect config env (w_ledger (s_world s)) = Ok eligible →
  let s' := (processAllTransactions config env s).2 in
  let m := transactions (s_state s') in
  c_pending (s_counters s') = count_status pending m
  ∧ c_submitted (s_counters s') = count_status submitted m
  ∧ c_paid (s_counters s') = count_status paid m
  ∧ c_failed (s_counters s') = count_status failed m
  ∧ c_pending (s_counters s') + c_submitted (s_counters s') + c_paid (s_counters s')
    + c_failed (s_counters s') = size m.
Proof.
  intros Hinit Hdetect s' m.
  assert (c_pending (s_counters s') = count_status pending m
          ∧ c_submitted (s_counters s') = count_status submitted m
          ∧ c_paid (s_counters s') = count_status paid m
          ∧ c_failed (s_counters s') = count_status failed m) as (H1 & H2 & H3 & H4).
  { subst s' m.
    destruct (run_exact config env s u eligible Hinit Hdetect) as (s2 & _ & ->).
    destruct (decide (eligible = [])); cbn [snd]; repeat split. }
  rewrite H1, H2, H3, H4. repeat split; try done. apply count_status_total.
Qed.

(** On the small ledger, starting from counters that say otherwise. *)
Lemma counters_reflect_state_witness :
  let s' := (processAllTransactions Scenario.live Scenario.env_ok
               (mkSys default_state (mkCounters 9 9 9 9 9)
                      (Scenario.world Scenario.ledger FileMissing))).2 in
  c_pending (s_counters s') + c_submitted (s_counters s') + c_paid (s_counters s')
  + c_failed (s_counters s') = size (transactions (s_state s')).
Proof.
  apply (counters_reflect_state Scenario.live Scenario.env_ok
           (mkSys default_state (mkCounters 9 9 9 9 9)
                  (Scenario.world Scenario.ledger FileMissing)) ()
           [Scenario.t1; Scenario.t2; Scenario.t3]).
  - reflexivity.
  - vm_compute. reflexivity.
Defined.

(** ** Saving and loading *)


(** X4. A file holding valid JSON other than [null] is returned as parsed, with
    no check of its shape. So a snapshot that [saveState] wrote is read back
    as the very document that was serialised, provided [JSON.parse] undoes
    [JSON.stringify] on it. *)
Theorem save_then_load_round_trip (env : Env) (s : Sys) :
  fs_write_fails env = None →
  JSON_parse env (snapshot env (saved_state (s_state s) (w_clock (s_world s))))
  = Some (json_of_state (saved_state (s_state s) (w_clock (s_world s)))) →
  (∀ text state s0,
      w_file (s_world s0) = FileText text → JSON_parse env text = Some state →
      state ≠ JNull →
      ∃ s0', loadState env s0 = (Ok state, s0') ∧ s_state s0' = s_state s0)
  ∧ ∃ s1 s2,
      saveState env s = (Ok (), s1)
      ∧ loadState env s1 = (Ok (json_of_state (s_state s1)), s2).
Proof.
  intros Hwrite Hparse.
  assert (∀ text state s0,
            w_file (s_world s0) = FileText text → JSON_parse env text = Some state →
            state ≠ JNull →
            ∃ s0', loadState env s0 = (Ok state, s0') ∧ s_state s0' = s_state s0) as Hload.
  { intros text state [st c [clk led file lg tr]] Hfile Hp Hnn.
    cbn [s_world w_file] in Hfile. subst file.
    unfold loadState, existsSync, readFileSync, parse, read_transactions. run.
    rewrite Hp. run. destruct state; try done; run; eauto. }
  split; [exact Hload|].
  destruct (Hload (snapshot env (saved_state (s_state s) (w_clock (s_world s))))
              (json_of_state (saved_state (s_state s) (w_clock (s_world s))))
              (sys_after_save env s)) as (s2 & Hs2 & _); [| done | done |].
  { unfold sys_after_save. cbn [s_world w_file]. by rewrite Hwrite. }
  exists (sys_after_save env s), s2. split; [apply saveState_eq | exact Hs2].
Qed.

(** A ledger service and an export service for the cases below. *)
Module Cases.

(** As [Scenario.env_ok], but [JSON.parse] reads back the one snapshot that
    [JSON.stringify] writes for the empty state stamped at instant 1000. *)
Definition env_round_trip : Env :=
  {| ab_init := Ok ();
     ab_getCategoryGroups := Ok [mkGroup "g-home" "Household"; Scenario.hp_group];
     ab_getCategories := Ok [Scenario.groceries; Scenario.fuel];
     ab_getAccounts := Ok [Scenario.checking; Scenario.card];
     ab_getTransactions_fails := λ _, None;
     ab_updateTransaction_fails := λ _, None;
     ab_shutdown_fails := None;
     xano_request := λ _, Ok (JObj [("id", JNum 7)]);
     fs_write_fails := None;
     JSON_parse := λ text,
       if String.eqb text "{...}"
       then Some (json_of_state (saved_state default_state 1000))
       else None;
     JSON_stringify := λ _, "{...}" |}.

(** As [Scenario.env_ok], but the export service refuses [t2]. *)
Definition env_refuses_t2 : Env :=
  {| ab_init := Ok ();
     ab_getCategoryGroups := Ok [mkGroup "g-home" "Household"; Scenario.hp_group];
     ab_getCategories := Ok [Scenario.groceries; Scenario.fuel];
     ab_getAccounts := Ok [Scenario.checking; Scenario.card];
     ab_getTransactions_fails := λ _, None;
     ab_updateTransaction_fails := λ _, None;
     ab_shutdown_fails := None;
     xano_request := λ tx,
       if String.eqb (tx_id tx) "t2" then Throw "Xano API error 422: bad payee"
       else Ok (JObj [("id", JNum 7)]);
     fs_write_fails := None;
     JSON_parse := λ _, None;
     JSON_stringify := λ _, "{...}" |}.

End Cases.

Lemma save_then_load_round_trip_witness :
  ∃ s1 s2,
    saveState Cases.env_round_trip Scenario.fresh = (Ok (), s1)
    ∧ loadState Cases.env_round_trip s1 = (Ok (json_of_state (s_state s1)), s2).
Proof.
  apply (save_then_load_round_trip Cases.env_round_trip Scenario.fresh);
    reflexivity.
Defined.

(** ** A refused submission *)



(** ** Attempts and the entry's snapshot *)





(** ** Lifetime statistics *)









(** ** Tags in the ledger *)







Section Tags.
Variable config : Config.
Variable env : Env.





Lemma batch_ledger_dry batch : ∀ s,
  hp_dry_run_mode config = true →
  w_ledger (s_world (batch_sys config env batch s)) = w_ledger (s_world s).
Proof.
  induction batch as [|t batch IH]; intros s Hdry; cbn [batch_sys fold_left]; [done|].
  unfold batch_sys in IH. rewrite IH by done.
  cbn [sys_after_one slept sys_after s_world w_ledger]. unfold tx_ledger. by rewrite Hdry.
Qed.

(** The ledger a run leaves. *)
Lemma run_ledger s u eligible :
  ab_init env = Ok u →
  detect config env (w_ledger (s_world s)) = Ok eligible →
  ∃ s1, w_ledger (s_world s1) = w_ledger (s_world s)
        ∧ w_ledger (s_world (processAllTransactions config env s).2)
          = w_ledger (s_world (batch_sys config env (batch_of config eligible) s1)).
Proof.
  intros Hinit Hdetect.
  destruct (decide (eligible = [])) as [->|Hne].
  - destruct (run_nothing_eligible config env s u Hinit Hdetect)
      as (s' & -> & [_ Hled _ _ _]).
    exists s. by rewrite batch_of_nil.
  - destruct (run_batch config env s u eligible Hinit Hdetect Hne)
      as (s1 & s' & [_ _ Hled1 _ _ _] & -> & _ & _ & Hled & _).
    by exists s1.
Qed.


End Tags.



(** ** The calls a run makes *)

(** The calls of a run, in order: the account fetches, the calls of the
    batch, at most one file write, the shutdown. *)
Lemma run_trace_shape config env s :
  ∃ accounts batch writes,
    w_trace (s_world (processAllTransactions config env s).2)
    = (w_trace (s_world s) ++ (EvGetTransactions <$> accounts)
       ++ concat (tx_events config env <$> batch)
       ++ (EvWriteFile <$> writes) ++ [EvShutdown])%list
    ∧ (∀ tx, tx ∈ batch →
         ∃ eligible, detect config env (w_ledger (s_world s)) = Ok eligible
                     ∧ tx ∈ eligible)
    ∧ (writes = [] ∨ ∃ eligible text,
         detect config env (w_ledger (s_world s)) = Ok eligible ∧ eligible ≠ []
         ∧ writes = [text]).
Proof.
  assert (∀ tx : Transaction, tx ∈ [] →
            ∃ eligible, detect config env (w_ledger (s_world s)) = Ok eligible
                        ∧ tx ∈ eligible) as Hnil.
  { intros tx H. by apply elem_of_nil in H. }
  destruct (ab_init env) as [u|err] eqn:Hinit.
  2: { destruct (run_init_fails config env s err Hinit)
         as (s' & -> & [_ _ _ (accounts & Htrace) _]).
       exists accounts, [], []. cbn [snd]. split; [by rewrite Htrace|]. by split; [|left]. }
  destruct (detect config env (w_ledger (s_world s))) as [eligible|err] eqn:Hdetect.
  2: { destruct (run_detect_fails config env s u err Hinit Hdetect)
         as (s' & -> & [_ _ _ (accounts & Htrace) _]).
       exists accounts, [], []. cbn [snd]. split; [by rewrite Htrace|].
       split; [| by left]. intros tx H. by apply elem_of_nil in H. }
  destruct (decide (eligible = [])) as [->|Hne].
  - destruct (run_nothing_eligible config env s u Hinit Hdetect)
      as (s' & -> & [_ _ _ (accounts & Htrace) _]).
    exists accounts, [], []. cbn [snd]. split; [by rewrite Htrace|].
    split; [| by left]. intros tx H. by apply elem_of_nil in H.
  - destruct (run_batch config env s u eligible Hinit Hdetect Hne)
      as (s1 & s' & [_ _ _ _ (accounts & Htrace1) _] & -> & _ & _ & _ & Htrace & _).
    cbn [snd]. rewrite Htrace.
    cbn [sys_after_save sys_after_statistics s_world w_trace].
    rewrite batch_trace, Htrace1, <- !app_assoc.
    match goal with
    | |- context [EvWriteFile ?text] =>
        exists accounts, (batch_of config eligible), [text]
    end.
    split; [done|]. split.
    + intros tx Hin. exists eligible. split; [done | by apply (batch_of_subset config)].
    + right. by eexists eligible, _.
Qed.

(** X10. A tag is only ever written for a transaction the Export Client has just
    accepted: every notes update a run sends to the ledger is for a
    transaction that was detected as eligible, in a live run, right after
    its accepted submission, and writes the notes the processor had fetched
    with [#HP-Submitted] appended. *)
Theorem tags_only_after_acceptance (config : Config) (env : Env) (s : Sys)
    (k notes : string) :
  EvUpdateTransaction k notes ∈ w_trace (s_world (processAllTransactions config env s).2) →
  EvUpdateTransaction k notes ∈ w_trace (s_world s)
  ∨ (hp_dry_run_mode config = false
     ∧ ∃ eligible tx,
         detect config env (w_ledger (s_world s)) = Ok eligible
         ∧ tx ∈ eligible
         ∧ accepted env tx = true
         ∧ tx_id tx = k
         ∧ notes = (if truthy (notes_or_empty tx)
                    then notes_or_empty tx ++ " " ++ SUBMITTED_TAG
                    else SUBMITTED_TAG)
         ∧ EvSubmitToXano k
           ∈ w_trace (s_world (processAllTransactions config env s).2)).
Proof.
  destruct (run_trace_shape config env s) as (accounts & batch & writes & -> & Hbatch & _).
  rewrite !elem_of_app. intros [H | [H | [H | [H | H]]]].
  - by left.
  - apply list_elem_of_fmap in H as (a & Ha & _). discriminate.
  - right. apply elem_of_concat in H as (l & Hl & (tx & -> & Hin)%list_elem_of_fmap).
    destruct (Hbatch tx Hin) as (eligible & Hdetect & Hel).
    unfold tx_events in Hl.
    destruct (hp_dry_run_mode config) eqn:Hdry; [by apply elem_of_nil in Hl|].
    split; [done|]. exists eligible, tx.
    destruct (xano_request env tx) as [response|err] eqn:Hx.
    2: { apply list_elem_of_singleton in Hl. discriminate. }
    apply elem_of_cons in Hl as [Hl | Hl]; [discriminate|].
    apply list_elem_of_singleton in Hl. injection Hl as -> ->.
    split; [done|]. split; [done|]. split; [by unfold accepted; rewrite Hx|].
    split; [done|]. split; [done|].
    rewrite !elem_of_app. right. right. left.
    apply elem_of_concat. exists (tx_events config env tx). split.
    + unfold tx_events. rewrite Hdry, Hx. by left.
    + apply list_elem_of_fmap. by exists tx.
  - apply list_elem_of_fmap in H as (a & Ha & _). discriminate.
  - apply list_elem_of_singleton in H. discriminate.
Qed.

(** One refusal among three: [t1] was accepted and is tagged. *)
Lemma tags_only_after_acceptance_witness :
  EvUpdateTransaction "t1" "#HP-Submitted" ∈ w_trace (s_world Scenario.fresh)
  ∨ (hp_dry_run_mode Scenario.live = false
     ∧ ∃ eligible tx,
         detect Scenario.live Cases.env_refuses_t2 (w_ledger (s_world Scenario.fresh))
         = Ok eligible
         ∧ tx ∈ eligible
         ∧ accepted Cases.env_refuses_t2 tx = true
         ∧ tx_id tx = "t1"
         ∧ "#HP-Submitted" = (if truthy (notes_or_empty tx)
                              then notes_or_empty tx ++ " " ++ SUBMITTED_TAG
                              else SUBMITTED_TAG)
         ∧ EvSubmitToXano "t1"
           ∈ w_trace (s_world (processAllTransactions Scenario.live Cases.env_refuses_t2
                                 Scenario.fresh).2)).
Proof.
  apply (tags_only_after_acceptance Scenario.live Cases.env_refuses_t2 Scenario.fresh).
  apply list_elem_of_In. vm_compute. do 3 right. left. reflexivity.
Defined.

(** ** Dry runs and the ledger *)

Lemma dry_events_nil config env batch :
  hp_dry_run_mode config = true → concat (tx_events config env <$> batch) = [].
Proof.
  intros Hdry. induction batch as [|tx batch IH]; [done|].
  rewrite fmap_cons. cbn [concat]. rewrite IH. unfold tx_events. by rewrite Hdry.
Qed.

(** X11. A dry run sends nothing to the export service and changes nothing in the
    ledger: its only calls are the account fetches, the state file write and
    the shutdown. It does write the state file when something was eligible
    (with the batch recorded as submitted), and since no tag was written the
    same transactions are detected as eligible again on the ledger it
    leaves. *)
Theorem dry_run_leaves_ledger (config : Config) (env : Env) (s : Sys) (u : unit)
    (eligible : list Transaction) :
  hp_dry_run_mode config = true →
  ab_init env = Ok u →
  detect config env (w_ledger (s_world s)) = Ok eligible →
  let s' := (processAllTransactions config env s).2 in
  w_ledger (s_world s') = w_ledger (s_world s)
  ∧ detect config env (w_ledger (s_world s')) = Ok eligible
  ∧ (∀ ev, ev ∈ w_trace (s_world s') →
           ev ∈ w_trace (s_world s)
           ∨ (∃ account, ev = EvGetTransactions account)
           ∨ ev = EvWriteFile (snapshot env (s_state s'))
           ∨ ev = EvShutdown)
  ∧ (eligible ≠ [] → EvWriteFile (snapshot env (s_state s')) ∈ w_trace (s_world s')).
Proof.
  intros Hdry Hinit Hdetect s'.
  assert (w_ledger (s_world s') = w_ledger (s_world s)) as Hled.
  { subst s'. destruct (run_ledger config env s u eligible Hinit Hdetect) as (s1 & H1 & ->).
    by rewrite batch_ledger_dry. }
  split; [exact Hled|]. split; [by rewrite Hled|].
  subst s'.
  destruct (decide (eligible = [])) as [->|Hne].
  - destruct (run_nothing_eligible config env s u Hinit Hdetect)
      as (s' & -> & [_ _ _ (accounts & Htrace) _]).
    cbn [snd]. split; [| done]. intros ev. rewrite Htrace, !elem_of_app.
    intros [H | [H | H]]; [by left | |].
    + right. left. apply list_elem_of_fmap in H as (a & -> & _). by exists a.
    + apply list_elem_of_singleton in H. auto.
  - destruct (run_batch config env s u eligible Hinit Hdetect Hne)
      as (s1 & s' & [_ _ _ _ (accounts & Htrace1) _] & -> & Hst & _ & _ & Htrace & _).
    cbn [snd].
    assert (w_trace (s_world s')
            = (w_trace (s_world s) ++ (EvGetTransactions <$> accounts)
               ++ [EvWriteFile (snapshot env (s_state s')); EvShutdown])%list) as ->.
    { rewrite Htrace, Hst. cbn [sys_after_save sys_after_statistics s_world w_trace].
      rewrite batch_trace, Htrace1.
      rewrite dry_events_nil by done.
      by rewrite app_nil_r, <- !app_assoc. }
    split.
    + intros ev. rewrite !elem_of_app. intros [H | [H | H]]; [by left | |].
      * right. left. apply list_elem_of_fmap in H as (a & -> & _). by exists a.
      * apply elem_of_cons in H as [-> | H]; [auto|].
        apply list_elem_of_singleton in H. auto.
    + intros _. rewrite !elem_of_app. right. right. by left.
Qed.

(** Scenario A again: the ledger is as before the run and the same three
    transactions are still eligible. *)
Lemma dry_run_leaves_ledger_witness :
  let s' := (processAllTransactions Scenario.dry Scenario.env_ok Scenario.fresh).2 in
  w_ledger (s_world s') = Scenario.ledger
  ∧ detect Scenario.dry Scenario.env_ok (w_ledger (s_world s'))
    = Ok [Scenario.t1; Scenario.t2; Scenario.t3].
Proof.
  intros s'.
  destruct (dry_run_leaves_ledger Scenario.dry Scenario.env_ok Scenario.fresh ()
              [Scenario.t1; Scenario.t2; Scenario.t3])
    as (Hled & Hdetect & _).
  - reflexivity.
  - reflexivity.
  - vm_compute. reflexivity.
  - split; [exact Hled | exact Hdetect].
Defined.

(** ** Which accounts detection queries *)

(** The accounts [fetchHPTransactions] asks the ledger for, in order: the
    on-budget, open ones, once the group and its categories were found. *)
Definition queried_accounts (config : Config) (env : Env) : list string :=
  match ab_getCategoryGroups env with
  | Throw _ => []
  | Ok categoryGroups =>
      match List.find (is_hp_group config) categoryGroups with
      | None => []
      | Some group =>
          match ab_getCategories env with
          | Throw _ => []
          | Ok allCategories =>
              if (length (hp_categories group allCategories) =? 0)%nat then []
              else
                match ab_getAccounts env with
                | Throw _ => []
                | Ok accounts => acc_id <$> on_budget accounts
                end
          end
      end
  end.

(** X12. Detection asks the ledger for transactions once per on-budget, open
    account, in the order of the account listing, and goes on to the next
    account when a fetch fails; off-budget and closed accounts are never
    asked for, and no account at all when the group is not found, has no
    category, or a listing fails. Detection makes no other call that leaves a
    trace, and changes neither the processing state nor the ledger. *)
Theorem detection_queries_open_accounts (config : Config) (env : Env) (s : Sys) :
  let s' := (fetchHPTransactions config env s).2 in
  w_trace (s_world s')
  = (w_trace (s_world s) ++ (EvGetTransactions <$> queried_accounts config env))%list
  ∧ (∀ id, id ∈ queried_accounts config env →
       ∃ accounts account,
         ab_getAccounts env = Ok accounts ∧ account ∈ accounts ∧ acc_id account = id
         ∧ acc_offbudget account = false ∧ acc_closed account = false)
  ∧ (∀ accounts, ab_getAccounts env = Ok accounts →
       queried_accounts config env = [] ∨
       queried_accounts config env = acc_id <$> on_budget accounts)
  ∧ s_state s' = s_state s
  ∧ w_ledger (s_world s') = w_ledger (s_world s).
Proof.
  cbn zeta. split; [| split; [| split]].
  - unfold fetchHPTransactions, queried_accounts, try_catch, throw,
      mbind, mret, M_bind, M_ret, bind, ret.
    rewrite !log_eq, getCategoryGroups_eq.
    destruct (ab_getCategoryGroups env) as [groups|err].
    2: { rewrite log_eq. cbn. by rewrite app_nil_r. }
    rewrite log_eq.
    destruct (List.find (is_hp_group config) groups) as [group|].
    2: { rewrite !log_eq. cbn. by rewrite app_nil_r. }
    rewrite !log_eq, getCategories_eq.
    destruct (ab_getCategories env) as [cats|err].
    2: { rewrite log_eq. cbn. by rewrite app_nil_r. }
    fold (hp_categories group cats).
    rewrite log_eq, forEach_log.
    destruct (length (hp_categories group cats) =? 0)%nat.
    { rewrite log_eq. cbn. by rewrite app_nil_r. }
    rewrite log_eq, getAccounts_eq.
    destruct (ab_getAccounts env) as [accounts|err].
    2: { rewrite log_eq. cbn. by rewrite app_nil_r. }
    fold (on_budget accounts).
    rewrite !log_eq, fetch_loop_eq, !log_eq, forEach_log.
    cbn [snd add_log s_world w_trace].
    match goal with
    | |- context [fold_left (sys_after_fetch ?e ?i) ?a ?s0] =>
        destruct (fetch_loop_frame e i a s0) as (_ & _ & _ & _ & Htrace & _)
    end.
    cbn zeta in Htrace. rewrite Htrace. cbn [add_log ticked s_world w_trace].
    by rewrite list_fmap_compose.
  - intros id. unfold queried_accounts.
    destruct (ab_getCategoryGroups env) as [groups|]; [| by intros ?%elem_of_nil].
    destruct (List.find _ groups) as [group|]; [| by intros ?%elem_of_nil].
    destruct (ab_getCategories env) as [cats|]; [| by intros ?%elem_of_nil].
    destruct (length _ =? 0)%nat; [by intros ?%elem_of_nil|].
    destruct (ab_getAccounts env) as [accounts|]; [| by intros ?%elem_of_nil].
    intros (account & -> & Hin)%list_elem_of_fmap.
    unfold on_budget in Hin. apply list_elem_of_In, List.filter_In in Hin as [Hin Hopen].
    apply andb_true_iff in Hopen as [H1%negb_true_iff H2%negb_true_iff].
    exists accounts, account. by rewrite list_elem_of_In.
  - intros accounts Hacc. unfold queried_accounts. rewrite Hacc.
    destruct (ab_getCategoryGroups env) as [groups|]; [| by left].
    destruct (List.find _ groups) as [group|]; [| by left].
    destruct (ab_getCategories env) as [cats|]; [| by left].
    destruct (length _ =? 0)%nat; [by left | by right].
  - destruct (fetchHPTransactions_eq config env s) as (s' & -> & [Hst _ Hled _ _ _]).
    by split.
Qed.

(** ** Finding the category group *)

Lemma toLowerCase_app a b : toLowerCase (a ++ b) = toLowerCase a ++ toLowerCase b.
Proof.
  induction a as [|x a IH]; [reflexivity|].
  change (String (lower_ascii x) (toLowerCase (a ++ b))
          = String (lower_ascii x) (toLowerCase a ++ toLowerCase b)).
  by f_equal.
Qed.

(** X13. A category group is taken for the HP group as soon as its name contains
    the letters [hp] in any letter case, whatever its identifier and whatever
    identifier is configured; and so is the group with the configured
    identifier, whatever its name. The first such group of the listing is the
    one used. *)
Theorem hp_group_lookup (config : Config) (id name : string) :
  (∀ pre m post, m ∈ ["hp"; "Hp"; "hP"; "HP"] → name = pre ++ m ++ post →
                 is_hp_group config (mkGroup id name) = true)
  ∧ (id = hp_category_group_id config → is_hp_group config (mkGroup id name) = true)
  ∧ (∀ before after,
        is_hp_group config (mkGroup id name) = true →
        (∀ g, g ∈ before → is_hp_group config g = false) →
        List.find (is_hp_group config) (before ++ mkGroup id name :: after)
        = Some (mkGroup id name)).
Proof.
  split; [| split].
  - intros pre m post Hm ->. unfold is_hp_group. cbn [grp_name].
    apply orb_true_iff. right. apply includes_spec.
    exists (toLowerCase pre), (toLowerCase post).
    rewrite !toLowerCase_app.
    assert (toLowerCase m = "hp") as ->; [| done].
    set_unfold. destruct Hm as [-> | [-> | [-> | [-> | []]]]]; reflexivity.
  - intros ->. unfold is_hp_group. cbn [grp_id]. by rewrite String.eqb_refl.
  - intros before after Hg Hbefore.
    induction before as [|g before IH]; cbn [app List.find].
    + by rewrite Hg.
    + rewrite (Hbefore g) by (by left). apply IH. intros g' Hin. apply Hbefore. by right.
Qed.

(** ** Configuration *)

(** X14. Dry-run mode is on only when the setting is exactly the string [true]
    (not [True], not [1]); and a batch size that is unset, not a number or 0
    becomes 50, so that a run then attempts the first [min(eligible, 50)]
    transactions. *)
Theorem configuration_defaults (group_id dry_run : option string) (batch : option Z)
    (env : Env) (s : Sys) (u : unit) (eligible : list Transaction) :
  batch = None ∨ batch = Some 0%Z →
  ab_init env = Ok u →
  detect (loadConfiguration group_id dry_run batch) env (w_ledger (s_world s))
  = Ok eligible →
  (hp_dry_run_mode (loadConfiguration group_id dry_run batch) = true
   ↔ dry_run = Some "true")
  ∧ hp_max_transactions_per_batch (loadConfiguration group_id dry_run batch) = 50%Z
  ∧ ∃ tally s',
      processAllTransactions (loadConfiguration group_id dry_run batch) env s
      = (Ok tally, s')
      ∧ processed tally = min (length eligible) 50
      ∧ attempted_ids (w_log (s_world s'))
        = (attempted_ids (w_log (s_world s))
           ++ (tx_id <$> take (min (length eligible) 50) eligible))%list.
Proof.
  intros Hbatch Hinit Hdetect.
  assert (hp_max_transactions_per_batch (loadConfiguration group_id dry_run batch) = 50%Z)
    as Hmax.
  { by destruct Hbatch as [-> | ->]. }
  split; [| split; [exact Hmax|]].
  - cbn [loadConfiguration hp_dry_run_mode]. destruct dry_run as [v|]; [| done].
    rewrite String.eqb_eq. split; [by intros -> | by intros [= ->]].
  - destruct (run_batch_attempted _ env s u eligible Hinit Hdetect)
      as (tally & s' & Hrun & Hn & Hlog).
    rewrite batch_of_take in Hn, Hlog by (rewrite Hmax; lia).
    rewrite Hmax in Hn, Hlog. change (Z.to_nat 50) with 50 in Hn, Hlog.
    exists tally, s'. split; [done|]. split; [| done].
    rewrite Hn, length_take. lia.
Qed.

(** The add-on started with no batch size and [HP_DRY_RUN_MODE=True]: the
    run is live and takes all three transactions. *)
Lemma configuration_defaults_witness :
  hp_dry_run_mode (loadConfiguration (Some "g-hp") (Some "True") None) = false
  ∧ ∃ tally s',
      processAllTransactions (loadConfiguration (Some "g-hp") (Some "True") None)
        Scenario.env_ok Scenario.fresh
      = (Ok tally, s')
      ∧ processed tally = 3.
Proof.
  destruct (configuration_defaults (Some "g-hp") (Some "True") None Scenario.env_ok
              Scenario.fresh () [Scenario.t1; Scenario.t2; Scenario.t3])
    as (_ & _ & tally & s' & Hrun & Hn & _).
  - by left.
  - reflexivity.
  - vm_compute. reflexivity.
  - split; [reflexivity|]. exists tally, s'. split; [exact Hrun | exact Hn].
Defined.

(** ** A negative batch size *)

Lemma batch_of_negative config eligible :
  (hp_max_transactions_per_batch config < 0)%Z →
  batch_of config eligible
  = take (length eligible - Z.to_nat (- hp_max_transactions_per_batch config)) eligible.
Proof.
  intros Hneg. unfold batch_of, slice0.
  assert ((Z.of_nat (length eligible) `min` hp_max_transactions_per_batch config <? 0)%Z
          = true) as -> by (apply Z.ltb_lt; lia).
  f_equal. lia.
Qed.

(** X15. A negative configured maximum is not treated as an empty batch: with a
    maximum of [-k] the array slice counts from the end, and the run attempts
    all eligible transactions but the last [k], in order (none when there are
    at most [k]). *)
Theorem negative_batch_size_skips_last (config : Config) (env : Env) (s : Sys) (u : unit)
    (eligible : list Transaction) :
  ab_init env = Ok u →
  detect config env (w_ledger (s_world s)) = Ok eligible →
  (hp_max_transactions_per_batch config < 0)%Z →
  let n := length eligible - Z.to_nat (- hp_max_transactions_per_batch config) in
  ∃ tally s',
    processAllTransactions config env s = (Ok tally, s')
    ∧ processed tally = n
    ∧ attempted_ids (w_log (s_world s'))
      = (attempted_ids (w_log (s_world s)) ++ (tx_id <$> take n eligible))%list.
Proof.
  intros Hinit Hdetect Hneg n.
  destruct (run_batch_attempted config env s u eligible Hinit Hdetect)
    as (tally & s' & Hrun & Hn & Hlog).
  rewrite batch_of_negative in Hn, Hlog by done. fold n in Hn, Hlog.
  exists tally, s'. split; [done|]. split; [| done].
  rewrite Hn, length_take. lia.
Qed.

(** Three eligible transactions and a maximum of -1: the first two are
    attempted. *)
Lemma negative_batch_size_skips_last_witness :
  ∃ tally s',
    processAllTransactions (mkConfig "g-hp" false (-1)) Scenario.env_ok Scenario.fresh
    = (Ok tally, s')
    ∧ processed tally = 2
    ∧ attempted_ids (w_log (s_world s')) = ["t1"; "t2"].
Proof.
  apply (negative_batch_size_skips_last (mkConfig "g-hp" false (-1)) Scenario.env_ok
           Scenario.fresh () [Scenario.t1; Scenario.t2; Scenario.t3]).
  - reflexivity.
  - vm_compute. reflexivity.
  - simpl. lia.
Defined.

(** * Properties of the dashboard's read endpoints *)

(** ** The transactions endpoint *)





(** ** The entity endpoint *)

Lemma underscores_to_spaces_clean (s : string) :
  DashboardApi.underscore ∉ String.list_ascii_of_string (DashboardApi.underscores_to_spaces s).
Proof.
  induction s as [|c s IH]; cbn [DashboardApi.underscores_to_spaces String.list_ascii_of_string].
  - apply not_elem_of_nil.
  - apply not_elem_of_cons. split; [|exact IH].
    destruct (Ascii.eqb c DashboardApi.underscore) eqn:Hc.
    + intros H. by vm_compute in H.
    + intros H. rewrite <- H, Ascii.eqb_refl in Hc. done.
Qed.

Lemma replace_first_prefix (p s : string) :
  DashboardApi.replace_first (p ++ s) p "" = s.
Proof.
  assert (Hstart : ∀ p s : string, startsWith (p ++ s) p = true).
  { clear. induction p as [|c p IH]; intros s.
    - by destruct s.
    - change (startsWith (String c p ++ s) (String c p))
        with (if Ascii.eqb c c then startsWith (p ++ s) p else false).
      rewrite Ascii.eqb_refl. apply IH. }
  assert (Hdrop : ∀ p s : string, DashboardApi.drop_string (String.length p) (p ++ s) = s).
  { clear. induction p as [|c p IH]; intros s; [done|]. cbn. apply IH. }
  destruct p as [|c p].
  - destruct s; cbn; reflexivity.
  - change (String c p ++ s)%string with (String c (p ++ s))%string.
    cbn [DashboardApi.replace_first].
    change (String c (p ++ s))%string with ((String c p) ++ s)%string.
    rewrite Hstart, Hdrop. reflexivity.
Qed.

(** X17. The placeholder's friendly name never contains an underscore, and for an
    id of the form [sensor.actual_budget_<rest>] it is [<rest>] with every
    underscore replaced by a space. *)
Theorem placeholder_friendly_name (entityId rest : string) :
  (DashboardApi.underscore
     ∉ String.list_ascii_of_string (DashboardApi.friendly_name entityId))
  ∧ DashboardApi.friendly_name ("sensor.actual_budget_" ++ rest)
    = DashboardApi.underscores_to_spaces rest.
Proof.
  split; [apply underscores_to_spaces_clean|].
  unfold DashboardApi.friendly_name. by rewrite replace_first_prefix.
Qed.


Lemma fetch_failure_keeps_cache (parse : string → option json) (entityId : string)
    (answer : DashboardApi.HaAnswer) (entityCache : gmap string json) (err : string) :
  (DashboardApi.fetchEntityState parse entityId answer entityCache).1 = Throw err →
  (DashboardApi.fetchEntityState parse entityId answer entityCache).2 = entityCache.
Proof.
  unfold DashboardApi.fetchEntityState.
  destruct answer as [code data| |]; [|done..].
  destruct (code =? 200)%nat; [|done].
  by destruct (parse data).
Qed.


(** X19. With a supervisor token, once Home Assistant has answered 200 with a
    document that parses to a truthy value, the endpoint returns that value;
    and whenever a later fetch for the same entity fails, the endpoint
    returns that same value from the cache, with status 200, and the cache
    stays as it is. *)
Theorem entity_falls_back_to_cache (parse : string → option json) (token : string)
    (entityId data : string) (value : json) (entityCache : gmap string json) :
  truthy token = true →
  DashboardApi.own_key entityId = true →
  parse data = Some value →
  DashboardApi.js_truthy value = true →
  let first :=
    DashboardApi.entity parse (Some token) entityId
      (DashboardApi.HaResponse 200 data) entityCache in
  first.1 = (200, value)
  ∧ ∀ later err,
      (DashboardApi.fetchEntityState parse entityId later first.2).1 = Throw err →
      DashboardApi.entity parse (Some token) entityId later first.2
      = (200, value, first.2).
Proof.
  intros Htoken _ Hparse Hvalue. cbn zeta. unfold DashboardApi.entity. rewrite Htoken.
  cbn [DashboardApi.fetchEntityState Nat.eqb]. rewrite Hparse.
  destruct value; try done.
  all: cbn [fst snd]; split; [done|]; intros later err Hlater.
  all: pose proof (fetch_failure_keeps_cache _ _ _ _ _ Hlater) as Hsame.
  all: destruct (DashboardApi.fetchEntityState parse entityId later _)
         as [fetched cache'] eqn:Hfetch; cbn [fst snd] in *; subst fetched cache'.
  all: by rewrite lookup_insert_eq, Hvalue.
Qed.

(** A parser that knows one document. *)
Definition parse_on (data : string) (value : json) (text : string) : option json :=
  if String.eqb text data then Some value else None.

Lemma entity_falls_back_to_cache_witness :
  let parse := parse_on "{}" (JObj []) in
  let first :=
    DashboardApi.entity parse (Some "token") "sensor.actual_budget_hp_pending"
      (DashboardApi.HaResponse 200 "{}") ∅ in
  first.1 = (200, JObj [])
  ∧ ∀ later err,
      (DashboardApi.fetchEntityState parse "sensor.actual_budget_hp_pending" later first.2).1
      = Throw err →
      DashboardApi.entity parse (Some "token") "sensor.actual_budget_hp_pending" later first.2
      = (200, JObj [], first.2).
Proof.
  apply (entity_falls_back_to_cache (parse_on "{}" (JObj [])) "token"
           "sensor.actual_budget_hp_pending" "{}" (JObj []) ∅); reflexivity.
Defined.
